(** * Lexical analysis task: vocabulary loading, text encoding, tag decoding

    A shallow embedding of [paddlenlp/taskflow/lexical_analysis.py]:
    [load_vocab], [LacTask._preprocess] with its input check and its
    text-to-id encoding, and the tag-to-segment decoding of
    [LacTask._postprocess].  The neural model between the two stages is
    not part of the embedding: [_postprocess] is stated over arbitrary
    prediction ids and lengths. *)

From Stdlib Require Import ZArith NArith Lia Ascii String Decimal.
From stdpp Require Import base option list gmap.

Local Open Scope Z_scope.

(** ** Python values the module handles *)

(** A Python [str] is a sequence of Unicode code points. *)
Abbreviation pystr := (list N).

(** An ASCII literal of the source, as a Python string. *)
Definition lit (s : string) : pystr :=
  map N_of_ascii (list_ascii_of_string s).

(** The exceptions the embedded code can raise. *)
Inductive exn : Set :=
  | IndexError
  | KeyError
  | TypeError
  | ValueError.

(** A computation that returns a value or raises. *)
Inductive result (A : Type) : Type :=
  | Ok (a : A)
  | Raise (e : exn).

Arguments Ok {A} a.
Arguments Raise {A} e.

Definition bind {A B : Type} (m : result A) (k : A -> result B) : result B :=
  match m with
  | Ok a => k a
  | Raise e => Raise e
  end.

Notation "x <- m ;; k" := (bind m (fun x => k))
  (at level 100, m at next level, right associativity).

Module Py.

(** [l[i]] for a list or a string: a negative index counts from the
    end, an index out of range raises [IndexError]. *)
Definition getitem {A : Type} (l : list A) (i : Z) : result A :=
  let j := if i <? 0 then i + Z.of_nat (length l) else i in
  if j <? 0 then Raise IndexError
  else match l !! Z.to_nat j with
       | Some x => Ok x
       | None => Raise IndexError
       end.

(** [s[i]] on a string is the one-character string at [i]. *)
Definition str_getitem (s : pystr) (i : Z) : result pystr :=
  c <- getitem s i ;; Ok [c].

(** [l[:n]]: the first [n] items, or all but the last [-n] for a
    negative [n]; never raises. *)
Definition slice_to {A : Type} (l : list A) (n : Z) : list A :=
  if n <? 0 then take (length l - Z.to_nat (- n))%nat l
  else take (Z.to_nat n) l.

(** [d[k]] on a dict: [KeyError] when the key is absent. *)
Definition dict_getitem {V : Type} (d : gmap pystr V) (k : pystr) : result V :=
  match d !! k with
  | Some v => Ok v
  | None => Raise KeyError
  end.

(** [s.split(sep)] for a one-character separator: the pieces between
    the occurrences of [sep], always at least one piece. *)
Fixpoint split (sep : N) (s : pystr) : list pystr :=
  match s with
  | [] => [[]]
  | c :: s' =>
      if N.eqb c sep then [] :: split sep s'
      else match split sep s' with
           | piece :: pieces => (c :: piece) :: pieces
           | [] => [[c]]
           end
  end.

Fixpoint lstrip (c : N) (s : pystr) : pystr :=
  match s with
  | [] => []
  | x :: s' => if N.eqb x c then lstrip c s' else s
  end.

(** [s.strip(c)] for a one-character set: removes the leading and the
    trailing run of [c]. *)
Definition strip (c : N) (s : pystr) : pystr :=
  rev (lstrip c (rev (lstrip c s))).

(** Iterating a text file: the lines of its content, each with the
    newline that ends it; the last line comes without one when the
    content does not end with a newline.  [line] is the part of the
    current line read so far. *)
Fixpoint readlines_from (line content : pystr) : list pystr :=
  match content with
  | [] => match line with
          | [] => []
          | _ :: _ => [line]
          end
  | c :: content' =>
      if N.eqb c 10 then (line ++ [c]) :: readlines_from [] content'
      else readlines_from (line ++ [c]) content'
  end.

Definition readlines (content : pystr) : list pystr :=
  readlines_from [] content.

(** [s.endswith(suffix)]. *)
Definition endswith (s suffix : pystr) : bool :=
  (length suffix <=? length s)%nat
  && bool_decide (drop (length s - length suffix)%nat s = suffix).

(** [s == t] on strings. *)
Definition str_eq (s t : pystr) : bool := bool_decide (s = t).

Fixpoint uint_digits (u : Decimal.uint) : pystr :=
  match u with
  | Decimal.Nil => []
  | Decimal.D0 u => 48%N :: uint_digits u
  | Decimal.D1 u => 49%N :: uint_digits u
  | Decimal.D2 u => 50%N :: uint_digits u
  | Decimal.D3 u => 51%N :: uint_digits u
  | Decimal.D4 u => 52%N :: uint_digits u
  | Decimal.D5 u => 53%N :: uint_digits u
  | Decimal.D6 u => 54%N :: uint_digits u
  | Decimal.D7 u => 55%N :: uint_digits u
  | Decimal.D8 u => 56%N :: uint_digits u
  | Decimal.D9 u => 57%N :: uint_digits u
  end.

(** [str(n)] for an int: its decimal digits, with a leading minus
    sign for a negative number. *)
Definition str_of_int (n : Z) : pystr :=
  match Z.to_int n with
  | Decimal.Pos u => uint_digits u
  | Decimal.Neg u => 45%N :: uint_digits u
  end.

End Py.

(** ** Vocabulary files *)

(** A value stored in a vocabulary: the other field of a two-field
    line (a string), or the index of a single-field line (an int). *)
Inductive vocab_value : Set :=
  | VStr (s : pystr)
  | VInt (n : Z).

Section LoadVocab.

(** The Unicode table behind [str.isdigit]: which code points are
    digits.  The table belongs to the interpreter, not to the module. *)
Variable is_digit_char : N -> bool.

(** [s.isdigit()]: at least one character, and all of them digits. *)
Definition isdigit (s : pystr) : bool :=
  match s with
  | [] => false
  | _ :: _ => forallb is_digit_char s
  end.

(** [line.strip("\n").split("\t")] *)
Definition terms_of (line : pystr) : list pystr :=
  Py.split 9 (Py.strip 10 line).

(** One iteration of the loop over [enumerate(fin)]; the state is the
    dict [vocab] and the variable [reverse] ([None] until the first
    two-field line). *)
Definition load_vocab_step (vocab : gmap pystr vocab_value)
    (reverse : option bool) (i : Z) (line : pystr)
    : result (gmap pystr vocab_value * option bool) :=
  match terms_of line with
  | [t0; t1] =>
      let reverse :=
        match reverse with
        | None => Some (if isdigit t0 then true else false)
        | Some b => Some b
        end in
      let '(key, value) :=
        match reverse with
        | Some true => (t1, t0)
        | _ => (t0, t1)
        end in
      Ok (<[key := VStr value]> vocab, reverse)
  | [t0] => Ok (<[t0 := VInt i]> vocab, reverse)
  | _ => Raise ValueError
  end.

Fixpoint load_vocab_loop (vocab : gmap pystr vocab_value)
    (reverse : option bool) (i : Z) (fin : list pystr)
    : result (gmap pystr vocab_value) :=
  match fin with
  | [] => Ok vocab
  | line :: fin' =>
      st <- load_vocab_step vocab reverse i line ;;
      load_vocab_loop (fst st) (snd st) (i + 1) fin'
  end.

(** [load_vocab(dict_path)], over the lines the opened file yields. *)
Definition load_vocab (fin : list pystr) : result (gmap pystr vocab_value) :=
  load_vocab_loop ∅ None 0 fin.

End LoadVocab.

(** The ASCII digits, one instance of the digit table. *)
Definition ascii_digit (c : N) : bool := (48 <=? c)%N && (c <=? 57)%N.

(** ** The task *)

Module LacTask.

(** *** _preprocess *)

(** A call argument: Python is dynamically typed, so the text argument
    need not be a string or a list of strings.  The values considered
    are strings, ints, [None] and lists of such values. *)
Inductive pyval : Type :=
  | PStr (s : pystr)
  | PInt (n : Z)
  | PNone
  | PList (l : list pyval).

Definition is_str (v : pyval) : bool :=
  match v with PStr _ => true | _ => false end.

Definition is_list (v : pyval) : bool :=
  match v with PList _ => true | _ => false end.

(** The first lines of [_preprocess], on [inputs[0]]: a string is
    wrapped into a list, and anything that is then neither a string nor
    a list raises [TypeError]. *)
Definition check_inputs (inputs : pyval) : result pyval :=
  let inputs := if is_str inputs then PList [inputs] else inputs in
  if negb (is_str inputs) && negb (is_list inputs) then Raise TypeError
  else Ok inputs.

(** [kwargs['max_seq_len'] if 'max_seq_len' in kwargs else 64] *)
Definition max_seq_len (kwargs : gmap pystr Z) : Z :=
  match kwargs !! lit "max_seq_len" with
  | Some n => n
  | None => 64
  end.

(** [self._word_vocab.get("OOV")]: [None] when there is no such entry. *)
Definition oov_token_id (word_vocab : gmap pystr vocab_value)
    : option vocab_value :=
  word_vocab !! lit "OOV".

(** [self._q2b_vocab.get(token, token)] *)
Definition q2b_get (q2b_vocab : gmap pystr vocab_value) (token : pystr)
    : vocab_value :=
  match q2b_vocab !! token with
  | Some v => v
  | None => VStr token
  end.

(** [self._word_vocab.get(token, oov_token_id)]; the keys of the
    vocabulary are strings, so an int never hits. *)
Definition word_get (word_vocab : gmap pystr vocab_value)
    (token : vocab_value) (dflt : option vocab_value) : option vocab_value :=
  match token with
  | VStr s =>
      match word_vocab !! s with
      | Some v => Some v
      | None => dflt
      end
  | VInt _ => dflt
  end.

(** The loop over the characters of one input, appending to [ids]. *)
Fixpoint read_tokens (q2b_vocab word_vocab : gmap pystr vocab_value)
    (input_tokens : pystr) (ids : list (option vocab_value))
    : list (option vocab_value) :=
  match input_tokens with
  | [] => ids
  | c :: rest =>
      let token := q2b_get q2b_vocab [c] in
      let token_id := word_get word_vocab token (oov_token_id word_vocab) in
      read_tokens q2b_vocab word_vocab rest (ids ++ [token_id])
  end.

(** What [read] yields for one input string: [(ids, lens)]. *)
Definition read_one (q2b_vocab word_vocab : gmap pystr vocab_value)
    (kwargs : gmap pystr Z) (input_tokens : pystr)
    : list (option vocab_value) * Z :=
  let input_tokens := Py.slice_to input_tokens (max_seq_len kwargs) in
  let ids := read_tokens q2b_vocab word_vocab input_tokens [] in
  let lens := Z.of_nat (length ids) in
  (ids, lens).

(** The generator [read], as the list of what it yields. *)
Fixpoint read (q2b_vocab word_vocab : gmap pystr vocab_value)
    (kwargs : gmap pystr Z) (inputs : list pystr)
    : list (list (option vocab_value) * Z) :=
  match inputs with
  | [] => []
  | input_tokens :: rest =>
      read_one q2b_vocab word_vocab kwargs input_tokens
        :: read q2b_vocab word_vocab kwargs rest
  end.

(** [kwargs['lazy_load'] if 'lazy_load' in kwargs else False], as the
    truth value [load_dataset] tests: a Python bool is an int, and an
    int is true when it is not 0. *)
Definition lazy_load (kwargs : gmap pystr Z) : bool :=
  match kwargs !! lit "lazy_load" with
  | Some n => negb (n =? 0)
  | None => false
  end.

(** The two dict lookups of [read] for one token, whatever its type.
    The keys of both vocabularies are strings: a string token is looked
    up as in [read_tokens], an int or [None] hits no key, so
    [q2b_vocab.get] returns it and [word_vocab.get] returns the default;
    a list cannot be hashed, and [q2b_vocab.get] raises [TypeError]. *)
Definition token_id_of (q2b_vocab word_vocab : gmap pystr vocab_value)
    (token : pyval) : result (option vocab_value) :=
  match token with
  | PStr t =>
      Ok (word_get word_vocab (q2b_get q2b_vocab t) (oov_token_id word_vocab))
  | PInt _ | PNone => Ok (oov_token_id word_vocab)
  | PList _ => Raise TypeError
  end.

(** The loop [for token in input_tokens] over the items of a list. *)
Fixpoint read_list_tokens (q2b_vocab word_vocab : gmap pystr vocab_value)
    (input_tokens : list pyval) (ids : list (option vocab_value))
    : result (list (option vocab_value)) :=
  match input_tokens with
  | [] => Ok ids
  | token :: rest =>
      token_id <- token_id_of q2b_vocab word_vocab token ;;
      read_list_tokens q2b_vocab word_vocab rest (ids ++ [token_id])
  end.

(** The body of [read] for one item of [inputs], whatever its type: a
    string is sliced and read character by character ([read_one]), a
    list is sliced and read item by item, and [input_tokens[:max_seq_len]]
    raises [TypeError] on an int or on [None]. *)
Definition read_value (q2b_vocab word_vocab : gmap pystr vocab_value)
    (kwargs : gmap pystr Z) (input_tokens : pyval)
    : result (list (option vocab_value) * Z) :=
  match input_tokens with
  | PStr s => Ok (read_one q2b_vocab word_vocab kwargs s)
  | PList l =>
      let input_tokens := Py.slice_to l (max_seq_len kwargs) in
      ids <- read_list_tokens q2b_vocab word_vocab input_tokens [] ;;
      let lens := Z.of_nat (length ids) in
      Ok (ids, lens)
  | PInt _ | PNone => Raise TypeError
  end.

(** The generator [read] run to its end over the items of a list: what
    [list(read(inputs))] is, the first exception aborting the run. *)
Fixpoint read_items (q2b_vocab word_vocab : gmap pystr vocab_value)
    (kwargs : gmap pystr Z) (inputs : list pyval)
    : result (list (list (option vocab_value) * Z)) :=
  match inputs with
  | [] => Ok []
  | input_tokens :: rest =>
      example <- read_value q2b_vocab word_vocab kwargs input_tokens ;;
      examples <- read_items q2b_vocab word_vocab kwargs rest ;;
      Ok (example :: examples)
  end.

(** [read(inputs)] run to its end, on the value [_preprocess] passes:
    a list after the input check.  Iterating a string would yield its
    characters, and an int or [None] cannot be iterated. *)
Definition read_all (q2b_vocab word_vocab : gmap pystr vocab_value)
    (kwargs : gmap pystr Z) (inputs : pyval)
    : result (list (list (option vocab_value) * Z)) :=
  match inputs with
  | PList l => read_items q2b_vocab word_vocab kwargs l
  | PStr s =>
      read_items q2b_vocab word_vocab kwargs (map (fun c => PStr [c]) s)
  | PInt _ | PNone => Raise TypeError
  end.

(** Modelled from the spec: [load_dataset] of [paddlenlp.datasets] is
    not among the sources.  The text-to-id encoding stage of the spec is
    this call: with [lazy] false the dataset is built at once, so the
    generator is run to its end and what it raises is raised here; with
    [lazy] true the generator is kept and run when the dataset is
    iterated.  The dataset is modelled by the outcome of that run. *)
Definition load_dataset {X : Type} (examples : result (list X)) (lazy : bool)
    : result (result (list X)) :=
  if lazy then Ok examples
  else (built <- examples ;; Ok (Ok built)).

(** The dict [_preprocess] returns: ['text'], and for ['data_loader']
    the outcome of iterating the dataset it is built over (the batching
    of the loader belongs to the framework). *)
Record preprocess_outputs : Type := {
  out_text : pyval;
  out_data_loader : result (list (list (option vocab_value) * Z))
}.

Definition _preprocess (q2b_vocab word_vocab : gmap pystr vocab_value)
    (kwargs : gmap pystr Z) (inputs : list pyval)
    : result preprocess_outputs :=
  inputs <- Py.getitem inputs 0 ;;
  inputs <- check_inputs inputs ;;
  infer_ds <- load_dataset (read_all q2b_vocab word_vocab kwargs inputs)
                (lazy_load kwargs) ;;
  Ok {| out_text := inputs; out_data_loader := infer_ds |}.

(** *** _postprocess *)

(** One output record: the keys ['text'], ['segs'] and ['tags']. *)
Record single_result : Type := {
  res_text : pystr;
  res_segs : list pystr;
  res_tags : list pystr
}.

(** The three lists [_postprocess] reads from its [inputs] dict. *)
Record model_outputs : Type := {
  in_text : list pystr;
  in_result : list (list Z);
  in_lens : list Z
}.

(** The list comprehension [[id2tag[str(index)] for index in ...]].
    Only the string keys of the id-to-tag dict can be hit by
    [str(index)], so the dict is taken with string keys. *)
Fixpoint lookup_tags (id2tag_dict : gmap pystr pystr) (indices : list Z)
    : result (list pystr) :=
  match indices with
  | [] => Ok []
  | index :: rest =>
      tag <- Py.dict_getitem id2tag_dict (Py.str_of_int index) ;;
      tags <- lookup_tags id2tag_dict rest ;;
      Ok (tag :: tags)
  end.

(** [tag.split('-')[0]] *)
Definition coarse_tag (tag : pystr) : result pystr :=
  Py.getitem (Py.split 45 tag) 0.

(** The variables the decode loop updates. *)
Record loop_state : Type := {
  sent_out : list pystr;
  tags_out : list pystr;
  parital_word : pystr
}.

Definition loop_init : loop_state :=
  {| sent_out := []; tags_out := []; parital_word := [] |}.

(** [tag.endswith("-B") or (tag == "O" and tags[ind - 1] != "O")],
    with the short-circuit evaluation of [or] and [and]. *)
Definition begins_word (tags : list pystr) (ind : Z) (tag : pystr)
    : result bool :=
  if Py.endswith tag (lit "-B") then Ok true
  else if Py.str_eq tag (lit "O") then
    prev <- Py.getitem tags (ind - 1) ;;
    Ok (negb (Py.str_eq prev (lit "O")))
  else Ok false.

(** One iteration of [for ind, tag in enumerate(tags)]. *)
Definition loop_body (sent : pystr) (tags : list pystr)
    (st : loop_state) (ind : Z) (tag : pystr) : result loop_state :=
  if Py.str_eq (parital_word st) [] then
    c <- Py.str_getitem sent ind ;;
    t <- coarse_tag tag ;;
    Ok {| sent_out := sent_out st;
          tags_out := tags_out st ++ [t];
          parital_word := c |}
  else
    b <- begins_word tags ind tag ;;
    if b : bool then
      t <- coarse_tag tag ;;
      c <- Py.str_getitem sent ind ;;
      Ok {| sent_out := sent_out st ++ [parital_word st];
            tags_out := tags_out st ++ [t];
            parital_word := c |}
    else
      c <- Py.str_getitem sent ind ;;
      Ok {| sent_out := sent_out st;
            tags_out := tags_out st;
            parital_word := parital_word st ++ c |}.

(** The loop over [enumerate(tags)]: [rest] is what is left of [tags]
    and [ind] the index of its head. *)
Fixpoint decode_loop (sent : pystr) (tags : list pystr)
    (rest : list pystr) (ind : Z) (st : loop_state) : result loop_state :=
  match rest with
  | [] => Ok st
  | tag :: rest' =>
      st' <- loop_body sent tags st ind tag ;;
      decode_loop sent tags rest' (ind + 1) st'
  end.

(** The decode of one sentence from its tags: the loop, then the
    append of the word still accumulating. *)
Definition decode (sent : pystr) (tags : list pystr)
    : result (list pystr * list pystr) :=
  st <- decode_loop sent tags tags 0 loop_init ;;
  let sent_out :=
    if (length (sent_out st) <? length (tags_out st))%nat
    then sent_out st ++ [parital_word st]
    else sent_out st in
  Ok (sent_out, tags_out st).

(** The body of [for sent_index in range(len(lengths))]. *)
Definition process_sentence (id2tag_dict : gmap pystr pystr)
    (inputs : model_outputs) (sent_index : Z) : result single_result :=
  pred <- Py.getitem (in_result inputs) sent_index ;;
  len <- Py.getitem (in_lens inputs) sent_index ;;
  tags <- lookup_tags id2tag_dict (Py.slice_to pred len) ;;
  sent <- Py.getitem (in_text inputs) sent_index ;;
  out <- decode sent tags ;;
  Ok {| res_text := sent; res_segs := fst out; res_tags := snd out |}.

(** [range(n)] *)
Definition range (n : nat) : list Z := map Z.of_nat (seq 0 n).

Fixpoint postprocess_loop (id2tag_dict : gmap pystr pystr)
    (inputs : model_outputs) (indices : list Z)
    (final_results : list single_result) : result (list single_result) :=
  match indices with
  | [] => Ok final_results
  | sent_index :: rest =>
      single <- process_sentence id2tag_dict inputs sent_index ;;
      postprocess_loop id2tag_dict inputs rest (final_results ++ [single])
  end.

Definition _postprocess (id2tag_dict : gmap pystr pystr)
    (inputs : model_outputs) : result (list single_result) :=
  postprocess_loop id2tag_dict inputs (range (length (in_lens inputs))) [].

End LacTask.

(** ** Reference definitions the properties are stated with *)

Module Spec.

(** The part of a tag before its first ['-'], the whole tag when it
    has none. *)
Fixpoint before_dash (tag : pystr) : pystr :=
  match tag with
  | [] => []
  | c :: rest => if N.eqb c 45 then [] else c :: before_dash rest
  end.

(** The tag at an index of the decoded tag list. *)
Definition tag_at (tags : list pystr) (i : nat) : pystr :=
  default [] (tags !! i).

(** Whether a new segment starts at [ind]: at index 0, at a tag that
    ends with ["-B"], and at an ["O"] tag that follows a tag other
    than ["O"]. *)
Definition starts_segment (tags : list pystr) (ind : nat) : bool :=
  match ind with
  | O => true
  | S prev =>
      Py.endswith (tag_at tags ind) (lit "-B")
      || Py.str_eq (tag_at tags ind) (lit "O")
         && negb (Py.str_eq (tag_at tags prev) (lit "O"))
  end.

(** The indices below [n] at which a segment starts, in order. *)
Definition segment_starts (tags : list pystr) (n : nat) : list nat :=
  List.filter (starts_segment tags) (seq 0 n).

(** [sent[a:b]] for [a <= b]. *)
Definition substring (sent : pystr) (a b : nat) : pystr :=
  take (b - a)%nat (drop a sent).

(** The substrings of [sent] from each start to the next one, the last
    one up to [stop]. *)
Fixpoint cut_at (sent : pystr) (starts : list nat) (stop : nat)
    : list pystr :=
  match starts with
  | [] => []
  | a :: rest =>
      substring sent a (match rest with b :: _ => b | [] => stop end)
        :: cut_at sent rest stop
  end.

(** The segmentation the tags describe: the first [length tags]
    characters of the sentence, cut at every segment start. *)
Definition segments (sent : pystr) (tags : list pystr) : list pystr :=
  cut_at sent (segment_starts tags (length tags)) (length tags).

(** The index in the sentence at which each segment of a list of
    consecutive segments starts, the first one starting at [from]. *)
Fixpoint seg_starts (from : nat) (segs : list pystr) : list nat :=
  match segs with
  | [] => []
  | s :: rest => from :: seg_starts (from + length s)%nat rest
  end.

End Spec.

(** ** Definitions the statements use *)

(** Apply [f] to each item in order; the first exception aborts. *)
Fixpoint mapM {A B : Type} (f : A -> result B) (l : list A) : result (list B) :=
  match l with
  | [] => Ok []
  | x :: l' => y <- f x ;; ys <- mapM f l' ;; Ok (y :: ys)
  end.

(** The decode of one sentence from its own text, prediction ids and
    length alone: the tag lookup, the decode loop and the record. *)
Definition decode_sentence (id2tag_dict : gmap pystr pystr)
    (sent : pystr) (pred : list Z) (len : Z) : result LacTask.single_result :=
  tags <- LacTask.lookup_tags id2tag_dict (Py.slice_to pred len) ;;
  out <- LacTask.decode sent tags ;;
  Ok {| LacTask.res_text := sent;
        LacTask.res_segs := fst out;
        LacTask.res_tags := snd out |}.

(** The sentences of a batch: the items of the three parallel lists. *)
Definition sentences (inputs : LacTask.model_outputs)
    : list (pystr * list Z * Z) :=
  zip (zip (LacTask.in_text inputs) (LacTask.in_result inputs))
      (LacTask.in_lens inputs).

(** What holds of the loop variables after [i] iterations: nothing has
    happened yet, or the finished segments followed by the accumulating
    one are the cut of the first [i] characters at the segment starts
    below [i], with one coarse tag per start. *)
Definition loop_inv (sent : pystr) (tags : list pystr) (i : nat)
    (st : LacTask.loop_state) : Prop :=
  match i with
  | O => st = LacTask.loop_init
  | S _ =>
      let starts := Spec.segment_starts tags i in
      LacTask.sent_out st ++ [LacTask.parital_word st]
        = Spec.cut_at sent starts i
      /\ LacTask.tags_out st
        = map (fun a => Spec.before_dash (Spec.tag_at tags a)) starts
      /\ LacTask.parital_word st <> []
      /\ concat (LacTask.sent_out st) ++ LacTask.parital_word st = take i sent
      /\ Spec.seg_starts 0 (LacTask.sent_out st ++ [LacTask.parital_word st])
        = starts
  end.

(** The preconditions as stated: for every sentence index, the length is
    at most the length of the sentence, and every prediction id of the
    slice, as a string, is a key of the id-to-tag dict. *)
Definition postprocess_pre (id2tag_dict : gmap pystr pystr)
    (inputs : LacTask.model_outputs) : Prop :=
  forall i len, LacTask.in_lens inputs !! i = Some len ->
    exists sent pred,
      LacTask.in_text inputs !! i = Some sent
      /\ LacTask.in_result inputs !! i = Some pred
      /\ len <= Z.of_nat (length sent)
      /\ Forall (fun index => is_Some (id2tag_dict !! Py.str_of_int index))
           (Py.slice_to pred len).

(** The record of a sentence without segments. *)
Definition empty_record (sent : pystr) : LacTask.single_result :=
  {| LacTask.res_text := sent;
     LacTask.res_segs := [];
     LacTask.res_tags := [] |}.



(** The id of one character: the word-vocabulary entry of its
    q2b-normalized form, the entry of "OOV" when there is none. *)
Definition char_id (q2b_vocab word_vocab : gmap pystr vocab_value) (c : N)
    : option vocab_value :=
  LacTask.word_get word_vocab (LacTask.q2b_get q2b_vocab [c])
    (word_vocab !! lit "OOV").

(** A line with three or more tab-separated fields. *)
Definition malformed (line : pystr) : bool :=
  (3 <=? length (terms_of line))%nat.

(** Whether the first field of the earliest two-field line is a
    non-empty string of digits ([false] without such a line). *)
Fixpoint reverse_flag (is_digit_char : N -> bool) (lines : list pystr)
    : bool :=
  match lines with
  | [] => false
  | line :: rest =>
      match terms_of line with
      | [t0; _] => isdigit is_digit_char t0
      | _ => reverse_flag is_digit_char rest
      end
  end.

(** The entry of line [i]: its text with its index for one field, its
    two fields in (value, key) or in (key, value) order for two. *)
Definition entry_of (reverse : bool) (i : Z) (line : pystr)
    : option (pystr * vocab_value) :=
  match terms_of line with
  | [t0] => Some (t0, VInt i)
  | [t0; t1] => Some (if reverse then (t1, VStr t0) else (t0, VStr t1))
  | _ => None
  end.

(** The entries of the lines, the first line having index [i]. *)
Fixpoint entries (reverse : bool) (i : Z) (lines : list pystr)
    : list (pystr * vocab_value) :=
  match lines with
  | [] => []
  | line :: rest =>
      match entry_of reverse i line with
      | Some e => e :: entries reverse (i + 1) rest
      | None => entries reverse (i + 1) rest
      end
  end.

(** Entering entries into a dict in order: a later entry replaces an
    earlier one with the same key. *)
Definition enter (vocab : gmap pystr vocab_value)
    (es : list (pystr * vocab_value)) : gmap pystr vocab_value :=
  fold_left (fun d e => <[fst e := snd e]> d) es vocab.

(** ** The id-to-key dicts of [__init__] *)

#[global] Instance vocab_value_eq_dec : EqDecision vocab_value.
Proof. solve_decision. Defined.

#[global] Instance vocab_value_countable : Countable vocab_value.
Proof.
  apply (inj_countable'
           (fun v => match v with VStr s => inl s | VInt n => inr n end)
           (fun x => match x with inl s => VStr s | inr n => VInt n end)).
  intros []; reflexivity.
Defined.

(** [dict(zip(vocab.values(), vocab.keys()))], over the items of the
    vocabulary in the order the dict yields them: each value becomes a
    key, and a later item replaces an earlier one with the same value. *)
Definition id_dict_of_items (items : list (pystr * vocab_value))
    : gmap vocab_value pystr :=
  fold_left (fun d item => <[snd item := fst item]> d) items ∅.

(** The entries of an id dict that a string key can reach: what
    [id2tag_dict[str(index)]] looks into. *)
Definition str_keyed (d : gmap vocab_value pystr) : gmap pystr pystr :=
  map_fold
    (fun k v acc => match k with VStr s => <[s := v]> acc | VInt _ => acc end)
    ∅ d.

(** A line of a two-field vocabulary file. *)
Definition two_field_line (t0 t1 : pystr) : pystr :=
  t0 ++ [9%N] ++ t1 ++ [10%N].

(** ** From [_preprocess] to [_postprocess] *)

(** What reaches [_postprocess] for a batch of input strings when the
    data loader hands on the lengths [read] yields, in order, and the
    model returns the prediction lists [preds]. *)
Definition pipeline_outputs (q2b_vocab word_vocab : gmap pystr vocab_value)
    (kwargs : gmap pystr Z) (inputs : list pystr) (preds : list (list Z))
    : LacTask.model_outputs :=
  {| LacTask.in_text := inputs;
     LacTask.in_result := preds;
     LacTask.in_lens := map snd (LacTask.read q2b_vocab word_vocab kwargs inputs) |}.

(** ** Concrete inputs *)

(** A small tag dictionary and a batch of two sentences. *)
Definition demo_id2tag : gmap pystr pystr :=
  <[lit "0" := lit "n-B"]> (<[lit "1" := lit "n-I"]> (<[lit "2" := lit "O"]> ∅)).

Definition demo_inputs : LacTask.model_outputs :=
  {| LacTask.in_text := [lit "abc"; lit "de"];
     LacTask.in_result := [[0; 1; 2]; [2; 0; 2]];
     LacTask.in_lens := [3; 2] |}.

Definition demo_results : list LacTask.single_result :=
  [ {| LacTask.res_text := lit "abc";
       LacTask.res_segs := [lit "ab"; lit "c"];
       LacTask.res_tags := [lit "n"; lit "O"] |};
    {| LacTask.res_text := lit "de";
       LacTask.res_segs := [lit "d"; lit "e"];
       LacTask.res_tags := [lit "O"; lit "n"] |} ].

(** A batch that meets the stated preconditions with a negative length:
    [preds[0][:-1]] keeps two ids for a sentence of one character. *)
Definition negative_len_inputs : LacTask.model_outputs :=
  {| LacTask.in_text := [lit "a"];
     LacTask.in_result := [[2; 2; 2]];
     LacTask.in_lens := [-1] |}.

(** A word vocabulary and a full-width-to-half-width table of a few
    entries: U+FF21 is the full-width capital A. *)
Definition demo_word_vocab : gmap pystr vocab_value :=
  <[lit "A" := VStr (lit "7")]> (<[lit "OOV" := VStr (lit "9")]> ∅).

Definition demo_q2b_vocab : gmap pystr vocab_value :=
  <[[65313%N] := VStr (lit "A")]> ∅.

(** A file of two lines with the same single field. *)
Definition duplicate_lines : list pystr :=
  [lit "a" ++ [10%N]; lit "a" ++ [10%N]].

(** ** Evaluation on concrete inputs *)

Example getitem_last : Py.getitem [1; 2; 3] (-1) = Ok 3.
Proof. reflexivity. Qed.

Example getitem_out : Py.getitem [1; 2; 3] 3 = Raise IndexError.
Proof. reflexivity. Qed.

Example slice_to_negative : Py.slice_to [1; 2; 3] (-1) = [1; 2].
Proof. reflexivity. Qed.

Example split_dash : Py.split 45 (lit "PER-B") = [lit "PER"; lit "B"].
Proof. reflexivity. Qed.

Example split_none : Py.split 45 (lit "O") = [lit "O"].
Proof. reflexivity. Qed.

Example split_empty : Py.split 45 [] = [[]].
Proof. reflexivity. Qed.

Example strip_newline : Py.strip 10 (lit "ab" ++ [10%N]) = lit "ab".
Proof. reflexivity. Qed.

Example endswith_B : Py.endswith (lit "n-B") (lit "-B") = true.
Proof. reflexivity. Qed.

Example endswith_short : Py.endswith (lit "B") (lit "-B") = false.
Proof. reflexivity. Qed.

Example str_of_int_0 : Py.str_of_int 0 = lit "0".
Proof. reflexivity. Qed.

Example str_of_int_57 : Py.str_of_int 57 = lit "57".
Proof. reflexivity. Qed.

Example str_of_int_neg : Py.str_of_int (-3) = lit "-3".
Proof. reflexivity. Qed.

Example segments_lac :
  Spec.segments (lit "LACab")
    [lit "nz-B"; lit "nz-I"; lit "nz-I"; lit "v-B"; lit "q-B"]
  = [lit "LAC"; lit "a"; lit "b"].
Proof. reflexivity. Qed.

Example decode_lac :
  LacTask.decode (lit "LACab")
    [lit "nz-B"; lit "nz-I"; lit "nz-I"; lit "v-B"; lit "q-B"]
  = Ok ([lit "LAC"; lit "a"; lit "b"], [lit "nz"; lit "v"; lit "q"]).
Proof. reflexivity. Qed.

Example decode_O :
  LacTask.decode (lit "abcde")
    [lit "O"; lit "O"; lit "n-I"; lit "O"; lit "O"]
  = Ok ([lit "abc"; lit "de"], [lit "O"; lit "O"]).
Proof. reflexivity. Qed.

Example decode_short_sentence :
  LacTask.decode (lit "a") [lit "O"; lit "O"] = Raise IndexError.
Proof. reflexivity. Qed.

(** ** Facts about the Python primitives *)

Section PyFacts.

Context {A : Type}.
Implicit Types (l : list A) (i : nat) (z : Z).

Lemma getitem_nat l i x :
  l !! i = Some x -> Py.getitem l (Z.of_nat i) = Ok x.
Proof.
  intros Hx. unfold Py.getitem.
  destruct (Z.ltb_spec (Z.of_nat i) 0) as [Hneg | _]; [lia |].
  destruct (Z.ltb_spec (Z.of_nat i) 0) as [Hneg | _]; [lia |].
  rewrite Nat2Z.id, Hx. reflexivity.
Qed.

Lemma getitem_nat_inv l i x :
  Py.getitem l (Z.of_nat i) = Ok x -> l !! i = Some x.
Proof.
  unfold Py.getitem.
  destruct (Z.ltb_spec (Z.of_nat i) 0) as [Hneg | _]; [lia |].
  destruct (Z.ltb_spec (Z.of_nat i) 0) as [Hneg | _]; [lia |].
  rewrite Nat2Z.id. destruct (l !! i); congruence.
Qed.

Lemma getitem_nat_raise l i :
  (length l <= i)%nat -> Py.getitem l (Z.of_nat i) = Raise IndexError.
Proof.
  intros Hle. unfold Py.getitem.
  destruct (Z.ltb_spec (Z.of_nat i) 0) as [Hneg | _]; [lia |].
  destruct (Z.ltb_spec (Z.of_nat i) 0) as [Hneg | _]; [lia |].
  rewrite Nat2Z.id, (lookup_ge_None_2 l i Hle). reflexivity.
Qed.

Lemma slice_to_nonneg l z :
  0 <= z -> Py.slice_to l z = take (Z.to_nat z) l.
Proof.
  intros Hz. unfold Py.slice_to.
  destruct (Z.ltb_spec z 0); [lia | reflexivity].
Qed.

Lemma slice_to_length_le l z :
  0 <= z -> Z.of_nat (length (Py.slice_to l z)) <= z.
Proof.
  intros Hz. rewrite slice_to_nonneg by assumption.
  rewrite length_take. lia.
Qed.

End PyFacts.

Lemma split_cons_before_dash (tag : pystr) :
  exists pieces, Py.split 45 tag = Spec.before_dash tag :: pieces.
Proof.
  induction tag as [| c tag [pieces IH]]; simpl.
  - eexists; reflexivity.
  - destruct (N.eqb c 45).
    + eexists; reflexivity.
    + rewrite IH. eexists; reflexivity.
Qed.

Lemma coarse_tag_ok (tag : pystr) :
  LacTask.coarse_tag tag = Ok (Spec.before_dash tag).
Proof.
  unfold LacTask.coarse_tag.
  destruct (split_cons_before_dash tag) as [pieces ->]. reflexivity.
Qed.

Lemma before_dash_no_dash (tag : pystr) : 45%N ∉ Spec.before_dash tag.
Proof.
  induction tag as [| c tag IH]; simpl.
  - apply not_elem_of_nil.
  - destruct (N.eqb_spec c 45) as [-> | Hne].
    + apply not_elem_of_nil.
    + rewrite not_elem_of_cons. split; [congruence | exact IH].
Qed.

Lemma before_dash_without (tag : pystr) :
  45%N ∉ tag -> Spec.before_dash tag = tag.
Proof.
  induction tag as [| c tag IH]; simpl; intros Hnot; [reflexivity |].
  rewrite not_elem_of_cons in Hnot. destruct Hnot as [Hne Hnot].
  destruct (N.eqb_spec c 45) as [-> | _]; [congruence |].
  rewrite IH by assumption. reflexivity.
Qed.

Lemma before_dash_with (tag : pystr) :
  45%N ∈ tag -> exists rest, tag = Spec.before_dash tag ++ 45%N :: rest.
Proof.
  induction tag as [| c tag IH]; simpl; intros Hin.
  - apply elem_of_nil in Hin. contradiction.
  - destruct (N.eqb_spec c 45) as [-> | Hne].
    + exists tag. reflexivity.
    + apply elem_of_cons in Hin. destruct Hin as [Heq | Hin]; [congruence |].
      destruct (IH Hin) as [rest Hrest]. exists rest. simpl. congruence.
Qed.

(** ** The decode loop and the segmentation it computes *)

Lemma cut_at_snoc (sent : pystr) (starts : list nat) (a stop : nat) :
  Spec.cut_at sent (starts ++ [a]) stop
  = Spec.cut_at sent starts a ++ [Spec.substring sent a stop].
Proof.
  induction starts as [| b starts IH]; [reflexivity |].
  cbn [app Spec.cut_at]. rewrite IH.
  destruct starts; reflexivity.
Qed.

Lemma substring_extend (sent : pystr) (a i : nat) (c : N) :
  (a <= i)%nat -> sent !! i = Some c ->
  Spec.substring sent a (S i) = Spec.substring sent a i ++ [c].
Proof.
  intros Hle Hc. unfold Spec.substring.
  replace (S i - a)%nat with (S (i - a)) by lia.
  apply take_S_r. rewrite lookup_drop.
  replace (a + (i - a))%nat with i by lia. exact Hc.
Qed.

Lemma substring_one (sent : pystr) (i : nat) (c : N) :
  sent !! i = Some c -> Spec.substring sent i (S i) = [c].
Proof.
  intros Hc. rewrite (substring_extend sent i i c) by (lia || assumption).
  unfold Spec.substring. rewrite Nat.sub_diag. reflexivity.
Qed.

Lemma seg_starts_snoc (from : nat) (segs : list pystr) (s : pystr) :
  Spec.seg_starts from (segs ++ [s])
  = Spec.seg_starts from segs ++ [(from + length (concat segs))%nat].
Proof.
  revert from. induction segs as [| x segs IH]; intros from; simpl.
  - rewrite Nat.add_0_r. reflexivity.
  - rewrite IH, length_app. do 3 f_equal. lia.
Qed.

Lemma seg_starts_length (from : nat) (segs : list pystr) :
  length (Spec.seg_starts from segs) = length segs.
Proof.
  revert from. induction segs as [| x segs IH]; intros from; simpl;
    [reflexivity | rewrite IH; reflexivity].
Qed.

Lemma segment_starts_S (tags : list pystr) (i : nat) :
  Spec.segment_starts tags (S i)
  = Spec.segment_starts tags i
    ++ (if Spec.starts_segment tags i then [i] else []).
Proof.
  unfold Spec.segment_starts. rewrite seq_S, List.filter_app. simpl.
  reflexivity.
Qed.

Lemma segment_starts_lt (tags : list pystr) (i a : nat) :
  a ∈ Spec.segment_starts tags i -> (a < i)%nat.
Proof.
  unfold Spec.segment_starts. rewrite list_elem_of_In, List.filter_In, in_seq.
  lia.
Qed.

Lemma segment_starts_last (tags : list pystr) (p : nat) :
  exists starts a,
    Spec.segment_starts tags (S p) = starts ++ [a] /\ (a <= p)%nat.
Proof.
  assert (Hne : Spec.segment_starts tags (S p) <> []) by discriminate.
  destruct (exists_last Hne) as (starts & a & Hs).
  exists starts, a. split; [exact Hs |].
  assert (Ha : (a < S p)%nat); [| lia].
  apply (segment_starts_lt tags). rewrite Hs.
  apply elem_of_app. right. apply list_elem_of_singleton. reflexivity.
Qed.

Lemma begins_word_spec (tags : list pystr) (p : nat) (tag : pystr) :
  tags !! S p = Some tag ->
  LacTask.begins_word tags (Z.of_nat (S p)) tag
  = Ok (Spec.starts_segment tags (S p)).
Proof.
  intros Htag.
  assert (Hp : is_Some (tags !! p)).
  { apply lookup_lt_is_Some. apply lookup_lt_Some in Htag. lia. }
  destruct Hp as [prev Hprev].
  unfold LacTask.begins_word, Spec.starts_segment, Spec.tag_at.
  rewrite Htag, Hprev. simpl default.
  replace (Z.of_nat (S p) - 1) with (Z.of_nat p) by lia.
  rewrite (getitem_nat tags p prev Hprev). simpl bind.
  destruct (Py.endswith tag (lit "-B")); [reflexivity |].
  destruct (Py.str_eq tag (lit "O")); reflexivity.
Qed.

Lemma str_getitem_nat (sent : pystr) (i : nat) (c : N) :
  sent !! i = Some c -> Py.str_getitem sent (Z.of_nat i) = Ok [c].
Proof.
  intros Hc. unfold Py.str_getitem. rewrite (getitem_nat sent i c Hc).
  reflexivity.
Qed.

Lemma loop_body_inv (sent : pystr) (tags : list pystr) (i : nat)
    (st : LacTask.loop_state) (tag : pystr) :
  tags !! i = Some tag -> (i < length sent)%nat -> loop_inv sent tags i st ->
  exists st',
    LacTask.loop_body sent tags st (Z.of_nat i) tag = Ok st'
    /\ loop_inv sent tags (S i) st'.
Proof.
  intros Htag Hlen Hinv.
  destruct (lookup_lt_is_Some_2 sent i Hlen) as [c Hc].
  unfold LacTask.loop_body.
  rewrite (str_getitem_nat sent i c Hc), coarse_tag_ok.
  destruct i as [| p].
  - (* the first tag opens the first segment *)
    simpl in Hinv. subst st. simpl.
    eexists; split; [reflexivity |].
    unfold loop_inv, Spec.segment_starts. simpl.
    unfold Spec.tag_at. rewrite Htag. simpl.
    rewrite (substring_one sent 0 c Hc), (take_S_r sent 0 c Hc), take_0.
    repeat split; congruence.
  - destruct Hinv as (Hcut & Htags & Hne & Hcat & Hst).
    unfold Py.str_eq at 1. rewrite (bool_decide_eq_false_2 _ Hne).
    rewrite (begins_word_spec tags p tag Htag).
    pose proof (segment_starts_S tags (S p)) as HS.
    assert (Hi : length (take (S p) sent) = S p) by (rewrite length_take; lia).
    destruct (Spec.starts_segment tags (S p)) eqn:Hstart;
      cbn [bind]; (eexists; split; [reflexivity |]);
      unfold loop_inv; cbv zeta; rewrite HS;
      cbn [LacTask.sent_out LacTask.tags_out LacTask.parital_word].
    + (* a new segment starts here *)
      rewrite cut_at_snoc, <- Hcut, (substring_one sent (S p) c Hc).
      rewrite map_app, <- Htags. simpl map.
      unfold Spec.tag_at. rewrite Htag. simpl default.
      rewrite seg_starts_snoc, Hst, concat_app. simpl concat.
      rewrite app_nil_r, Hcat, Hi.
      rewrite (take_S_r sent (S p) c Hc).
      repeat split; congruence.
    + (* the character joins the accumulating segment *)
      rewrite app_nil_r.
      rewrite app_assoc, Hcat, (take_S_r sent (S p) c Hc).
      rewrite seg_starts_snoc. rewrite seg_starts_snoc in Hst.
      destruct (segment_starts_last tags p) as (starts & a & Hs & Ha).
      rewrite Hs in *.
      rewrite cut_at_snoc in Hcut. apply app_inj_tail in Hcut.
      destruct Hcut as [Hso Hpw].
      rewrite cut_at_snoc, (substring_extend sent a (S p) c) by (lia || assumption).
      rewrite Hso, Hpw.
      repeat split; try congruence.
      intros Hnil. symmetry in Hnil. exact (app_cons_not_nil _ _ _ Hnil).
Qed.

Lemma decode_loop_inv (sent : pystr) (tags : list pystr) :
  (length tags <= length sent)%nat ->
  forall (rest done : list pystr) (st : LacTask.loop_state),
    tags = done ++ rest ->
    loop_inv sent tags (length done) st ->
    exists st',
      LacTask.decode_loop sent tags rest (Z.of_nat (length done)) st = Ok st'
      /\ loop_inv sent tags (length tags) st'.
Proof.
  intros Hlen rest.
  induction rest as [| tag rest IH]; intros done st Htags Hinv.
  - rewrite app_nil_r in Htags. subst done. exists st. split; [reflexivity | exact Hinv].
  - assert (Htag : tags !! length done = Some tag).
    { rewrite Htags. apply list_lookup_middle. reflexivity. }
    assert (Hi : (length done < length sent)%nat).
    { apply lookup_lt_Some in Htag. lia. }
    destruct (loop_body_inv sent tags _ st tag Htag Hi Hinv) as (st1 & Hbody & Hinv1).
    cbn [LacTask.decode_loop]. rewrite Hbody. cbn [bind].
    replace (Z.of_nat (length done) + 1) with (Z.of_nat (length (done ++ [tag])))
      by (rewrite length_app; simpl; lia).
    apply IH.
    + rewrite <- app_assoc. exact Htags.
    + rewrite length_app. simpl. rewrite Nat.add_1_r. exact Hinv1.
Qed.

Lemma loop_body_ok_bound (sent : pystr) (tags : list pystr) (i : nat)
    (st st' : LacTask.loop_state) (tag : pystr) :
  LacTask.loop_body sent tags st (Z.of_nat i) tag = Ok st' ->
  (i < length sent)%nat.
Proof.
  intros Hbody. destruct (Nat.lt_ge_cases i (length sent)) as [Hlt | Hge];
    [exact Hlt | exfalso].
  revert Hbody. unfold LacTask.loop_body, Py.str_getitem.
  rewrite (getitem_nat_raise sent i Hge), coarse_tag_ok.
  destruct (Py.str_eq (LacTask.parital_word st) []); cbn [bind];
    [discriminate |].
  destruct (LacTask.begins_word tags (Z.of_nat i) tag) as [[|] | e];
    cbn [bind]; discriminate.
Qed.

Lemma decode_loop_ok_bound (sent : pystr) (tags : list pystr) :
  forall (rest : list pystr) (i : nat) (st st' : LacTask.loop_state),
    LacTask.decode_loop sent tags rest (Z.of_nat i) st = Ok st' ->
    rest <> [] ->
    (i + length rest <= length sent)%nat.
Proof.
  induction rest as [| tag rest IH]; intros i st st' Hloop Hne; [congruence |].
  cbn [LacTask.decode_loop] in Hloop.
  destruct (LacTask.loop_body sent tags st (Z.of_nat i) tag) as [st1 | e] eqn:Hbody;
    cbn [bind] in Hloop; [| discriminate].
  apply loop_body_ok_bound in Hbody.
  destruct rest as [| tag' rest'].
  - simpl. lia.
  - replace (Z.of_nat i + 1) with (Z.of_nat (S i)) in Hloop by lia.
    apply IH in Hloop; [| discriminate]. simpl in *. lia.
Qed.

(** Within the sentence, the decode returns the reference segmentation,
    one coarse tag per segment start, and segments that tile the decoded
    prefix of the sentence. *)
Lemma decode_correct (sent : pystr) (tags : list pystr) :
  (length tags <= length sent)%nat ->
  exists segs tags_out,
    LacTask.decode sent tags = Ok (segs, tags_out)
    /\ segs = Spec.segments sent tags
    /\ tags_out
       = map (fun a => Spec.before_dash (Spec.tag_at tags a))
           (Spec.segment_starts tags (length tags))
    /\ concat segs = take (length tags) sent
    /\ Spec.seg_starts 0 segs = Spec.segment_starts tags (length tags).
Proof.
  intros Hlen.
  destruct (decode_loop_inv sent tags Hlen tags [] LacTask.loop_init)
    as (st & Hloop & Hinv); [reflexivity | reflexivity |].
  unfold LacTask.decode.
  change (Z.of_nat (length (@nil pystr))) with 0 in Hloop.
  rewrite Hloop. cbn [bind].
  destruct (length tags) as [| n] eqn:Hn.
  - apply length_zero_iff_nil in Hn. subst tags.
    simpl in Hinv. subst st. simpl. exists [], []. repeat split.
  - unfold loop_inv in Hinv. cbv zeta in Hinv. rewrite <- Hn in *.
    destruct Hinv as (Hcut & Htags & Hne & Hcat & Hst).
    assert (Hshort : (length (LacTask.sent_out st) <? length (LacTask.tags_out st))%nat = true).
    { apply Nat.ltb_lt. rewrite Htags, length_map, <- Hst, seg_starts_length,
        length_app. simpl. lia. }
    rewrite Hshort. eexists _, _. split; [reflexivity |].
    repeat split; try assumption.
    rewrite concat_app. simpl. rewrite app_nil_r. exact Hcat.
Qed.

Lemma decode_ok_bound (sent : pystr) (tags segs tags_out : list pystr) :
  LacTask.decode sent tags = Ok (segs, tags_out) ->
  (length tags <= length sent)%nat.
Proof.
  unfold LacTask.decode. intros Hdec.
  destruct (LacTask.decode_loop sent tags tags 0 LacTask.loop_init)
    as [st | e] eqn:Hloop; [| discriminate].
  destruct tags as [| tag tags']; [simpl; lia |].
  change 0 with (Z.of_nat 0) in Hloop.
  apply decode_loop_ok_bound in Hloop; [| discriminate]. exact Hloop.
Qed.

(** ** [_postprocess] as a map over the sentences *)

Lemma mapM_app {A B : Type} (f : A -> result B) (l1 l2 : list A) :
  mapM f (l1 ++ l2) = (ys1 <- mapM f l1 ;; ys2 <- mapM f l2 ;; Ok (ys1 ++ ys2)).
Proof.
  induction l1 as [| x l1 IH]; simpl.
  - destruct (mapM f l2); reflexivity.
  - destruct (f x) as [y | e]; simpl; [| reflexivity].
    rewrite IH. destruct (mapM f l1) as [ys1 | e]; simpl; [| reflexivity].
    destruct (mapM f l2); reflexivity.
Qed.

Lemma mapM_ok_lookup {A B : Type} (f : A -> result B) (l : list A) (ys : list B) :
  mapM f l = Ok ys ->
  length ys = length l
  /\ forall i y, ys !! i = Some y -> exists x, l !! i = Some x /\ f x = Ok y.
Proof.
  revert ys. induction l as [| x l IH]; simpl; intros ys Hm.
  - injection Hm as <-. split; [reflexivity |]. intros i y Hy.
    rewrite lookup_nil in Hy. discriminate.
  - destruct (f x) as [y0 | e] eqn:Hx; simpl in Hm; [| discriminate].
    destruct (mapM f l) as [ys0 | e] eqn:Hl; simpl in Hm; [| discriminate].
    injection Hm as <-. destruct (IH ys0 eq_refl) as [Hlen Hlook].
    split; [simpl; congruence |].
    intros [| i] y Hy; simpl in Hy.
    + injection Hy as <-. exists x. split; [reflexivity | exact Hx].
    + exact (Hlook i y Hy).
Qed.

Lemma mapM_all_ok {A B : Type} (f : A -> result B) (l : list A) :
  (forall x, x ∈ l -> exists y, f x = Ok y) -> exists ys, mapM f l = Ok ys.
Proof.
  induction l as [| x l IH]; intros Hall; simpl.
  - eexists; reflexivity.
  - destruct (Hall x) as [y Hy]; [apply elem_of_cons; left; reflexivity |].
    destruct IH as [ys Hys].
    { intros x' Hx'. apply Hall. apply elem_of_cons. right. exact Hx'. }
    rewrite Hy, Hys. eexists; reflexivity.
Qed.

Lemma postprocess_loop_mapM (id2tag_dict : gmap pystr pystr)
    (inputs : LacTask.model_outputs) (indices : list Z)
    (final_results : list LacTask.single_result) :
  LacTask.postprocess_loop id2tag_dict inputs indices final_results
  = (rs <- mapM (LacTask.process_sentence id2tag_dict inputs) indices ;;
     Ok (final_results ++ rs)).
Proof.
  revert final_results.
  induction indices as [| i indices IH]; intros final_results; simpl.
  - rewrite app_nil_r. reflexivity.
  - destruct (LacTask.process_sentence id2tag_dict inputs i) as [r | e];
      simpl; [| reflexivity].
    rewrite IH.
    destruct (mapM (LacTask.process_sentence id2tag_dict inputs) indices);
      simpl; [| reflexivity].
    rewrite <- app_assoc. reflexivity.
Qed.

Lemma postprocess_mapM (id2tag_dict : gmap pystr pystr)
    (inputs : LacTask.model_outputs) :
  LacTask._postprocess id2tag_dict inputs
  = mapM (LacTask.process_sentence id2tag_dict inputs)
      (LacTask.range (length (LacTask.in_lens inputs))).
Proof.
  unfold LacTask._postprocess. rewrite postprocess_loop_mapM.
  destruct (mapM _ _); reflexivity.
Qed.

Lemma range_lookup (n i : nat) (z : Z) :
  LacTask.range n !! i = Some z -> z = Z.of_nat i /\ (i < n)%nat.
Proof.
  unfold LacTask.range. intros Hz.
  change (map Z.of_nat (seq 0 n)) with (Z.of_nat <$> seq 0 n) in Hz.
  rewrite list_lookup_fmap in Hz.
  destruct (seq 0 n !! i) as [k |] eqn:Hk; [| discriminate].
  apply lookup_seq in Hk. destruct Hk as [-> Hlt].
  simpl in Hz. injection Hz as <-. split; [reflexivity | exact Hlt].
Qed.

Lemma range_elem (n : nat) (z : Z) :
  z ∈ LacTask.range n -> exists i, z = Z.of_nat i /\ (i < n)%nat.
Proof.
  intros Hz. apply list_elem_of_lookup in Hz. destruct Hz as [i Hi].
  apply range_lookup in Hi. destruct Hi as [-> Hlt].
  exists i. split; [reflexivity |].
  exact Hlt.
Qed.

(** With the three items of a sentence in range, the loop body is the
    decode of that sentence alone. *)
Lemma process_sentence_decode (id2tag_dict : gmap pystr pystr)
    (inputs : LacTask.model_outputs) (i : nat)
    (sent : pystr) (pred : list Z) (len : Z) :
  LacTask.in_text inputs !! i = Some sent ->
  LacTask.in_result inputs !! i = Some pred ->
  LacTask.in_lens inputs !! i = Some len ->
  LacTask.process_sentence id2tag_dict inputs (Z.of_nat i)
  = decode_sentence id2tag_dict sent pred len.
Proof.
  intros Hsent Hpred Hlen. unfold LacTask.process_sentence, decode_sentence.
  rewrite (getitem_nat _ i pred Hpred), (getitem_nat _ i len Hlen).
  cbn [bind].
  destruct (LacTask.lookup_tags id2tag_dict (Py.slice_to pred len)) as [tags | e];
    cbn [bind]; [| reflexivity].
  rewrite (getitem_nat _ i sent Hsent). reflexivity.
Qed.

(** A record of a successful run comes from the decode of its own
    sentence. *)
Lemma process_sentence_ok (id2tag_dict : gmap pystr pystr)
    (inputs : LacTask.model_outputs) (i : nat) (r : LacTask.single_result) :
  LacTask.process_sentence id2tag_dict inputs (Z.of_nat i) = Ok r ->
  exists sent pred len,
    LacTask.in_text inputs !! i = Some sent
    /\ LacTask.in_result inputs !! i = Some pred
    /\ LacTask.in_lens inputs !! i = Some len
    /\ decode_sentence id2tag_dict sent pred len = Ok r.
Proof.
  intros Hp.
  destruct (Py.getitem (LacTask.in_result inputs) (Z.of_nat i)) as [pred | e] eqn:Hpred.
  2: { unfold LacTask.process_sentence in Hp. rewrite Hpred in Hp. discriminate. }
  destruct (Py.getitem (LacTask.in_lens inputs) (Z.of_nat i)) as [len | e] eqn:Hlen.
  2: { unfold LacTask.process_sentence in Hp. rewrite Hpred, Hlen in Hp. discriminate. }
  destruct (Py.getitem (LacTask.in_text inputs) (Z.of_nat i)) as [sent | e] eqn:Hsent.
  2: { unfold LacTask.process_sentence in Hp. rewrite Hpred, Hlen, Hsent in Hp.
       cbn [bind] in Hp.
       destruct (LacTask.lookup_tags id2tag_dict (Py.slice_to pred len));
         discriminate. }
  apply getitem_nat_inv in Hpred, Hlen, Hsent.
  exists sent, pred, len. repeat split; try assumption.
  rewrite <- Hp. symmetry. apply process_sentence_decode; assumption.
Qed.

Lemma postprocess_records (id2tag_dict : gmap pystr pystr)
    (inputs : LacTask.model_outputs) (results : list LacTask.single_result) :
  LacTask._postprocess id2tag_dict inputs = Ok results ->
  length results = length (LacTask.in_lens inputs)
  /\ forall i r, results !! i = Some r ->
       exists sent pred len,
         LacTask.in_text inputs !! i = Some sent
         /\ LacTask.in_result inputs !! i = Some pred
         /\ LacTask.in_lens inputs !! i = Some len
         /\ decode_sentence id2tag_dict sent pred len = Ok r.
Proof.
  rewrite postprocess_mapM. intros Hm.
  apply mapM_ok_lookup in Hm. destruct Hm as [Hlen Hlook].
  split.
  - rewrite Hlen. unfold LacTask.range. rewrite length_map, length_seq.
    reflexivity.
  - intros i r Hr. destruct (Hlook i r Hr) as (z & Hz & Hp).
    apply range_lookup in Hz. destruct Hz as [-> _].
    exact (process_sentence_ok id2tag_dict inputs i r Hp).
Qed.

Lemma decode_sentence_ok (id2tag_dict : gmap pystr pystr)
    (sent : pystr) (pred : list Z) (len : Z) (r : LacTask.single_result) :
  decode_sentence id2tag_dict sent pred len = Ok r ->
  exists tags,
    LacTask.lookup_tags id2tag_dict (Py.slice_to pred len) = Ok tags
    /\ LacTask.decode sent tags = Ok (LacTask.res_segs r, LacTask.res_tags r)
    /\ LacTask.res_text r = sent.
Proof.
  unfold decode_sentence. intros Hd.
  destruct (LacTask.lookup_tags id2tag_dict (Py.slice_to pred len)) as [tags | e];
    cbn [bind] in Hd; [| discriminate].
  destruct (LacTask.decode sent tags) as [[segs tags_out] | e] eqn:Hdec;
    cbn [bind] in Hd; [| discriminate].
  injection Hd as <-. exists tags. split; [reflexivity |].
  split; [exact Hdec | reflexivity].
Qed.

Lemma str_eq_true (s t : pystr) : Py.str_eq s t = true <-> s = t.
Proof. unfold Py.str_eq. apply bool_decide_eq_true. Qed.

Lemma starts_segment_iff (tags : list pystr) (ind : nat) :
  Spec.starts_segment tags ind = true
  <-> ind = 0%nat
      \/ Py.endswith (Spec.tag_at tags ind) (lit "-B") = true
      \/ (Spec.tag_at tags ind = lit "O"
          /\ Spec.tag_at tags (ind - 1) <> lit "O").
Proof.
  destruct ind as [| p].
  - simpl. split; [left; reflexivity | reflexivity].
  - unfold Spec.starts_segment.
    replace (S p - 1)%nat with p by lia.
    rewrite orb_true_iff, andb_true_iff, negb_true_iff, str_eq_true.
    rewrite <- not_true_iff_false, str_eq_true.
    split.
    + intros [H | H]; right; [left | right]; exact H.
    + intros [H | [H | H]]; [discriminate | left | right]; exact H.
Qed.

Lemma segment_starts_elem (tags : list pystr) (n ind : nat) :
  ind ∈ Spec.segment_starts tags n
  <-> (ind < n)%nat /\ Spec.starts_segment tags ind = true.
Proof.
  unfold Spec.segment_starts.
  rewrite list_elem_of_In, List.filter_In, in_seq. intuition lia.
Qed.

(** C1. For a tag list no longer than the sentence, the decode loop of
    [_postprocess] returns the segmentation in which a segment starts
    exactly at index 0, at every index whose tag ends with "-B", and at
    every index whose tag is "O" while the previous tag is not "O":
    every other character extends the segment it falls in, and the last
    segment runs to the end of the tags. *)
Theorem decode_segments_start_exactly (sent : pystr) (tags : list pystr) :
  (length tags <= length sent)%nat ->
  exists segs tags_out,
    LacTask.decode sent tags = Ok (segs, tags_out)
    /\ segs = Spec.segments sent tags
    /\ forall ind,
         ind ∈ Spec.seg_starts 0 segs
         <-> (ind < length tags)%nat
             /\ (ind = 0%nat
                 \/ Py.endswith (Spec.tag_at tags ind) (lit "-B") = true
                 \/ (Spec.tag_at tags ind = lit "O"
                     /\ Spec.tag_at tags (ind - 1) <> lit "O")).
Proof.
  intros Hlen.
  destruct (decode_correct sent tags Hlen)
    as (segs & tags_out & Hdec & Hsegs & _ & _ & Hst).
  exists segs, tags_out. split; [exact Hdec |]. split; [exact Hsegs |].
  intros ind. rewrite Hst, segment_starts_elem, starts_segment_iff.
  reflexivity.
Qed.

Lemma decode_segments_start_exactly_witness :
  exists segs tags_out,
    LacTask.decode (lit "abcde")
      [lit "n-B"; lit "n-I"; lit "O"; lit "O"; lit "v-B"]
    = Ok (segs, tags_out)
    /\ segs
       = Spec.segments (lit "abcde")
           [lit "n-B"; lit "n-I"; lit "O"; lit "O"; lit "v-B"]
    /\ forall ind,
         ind ∈ Spec.seg_starts 0 segs
         <-> (ind < 5)%nat
             /\ (ind = 0%nat
                 \/ Py.endswith
                      (Spec.tag_at
                         [lit "n-B"; lit "n-I"; lit "O"; lit "O"; lit "v-B"] ind)
                      (lit "-B") = true
                 \/ (Spec.tag_at
                       [lit "n-B"; lit "n-I"; lit "O"; lit "O"; lit "v-B"] ind
                     = lit "O"
                     /\ Spec.tag_at
                          [lit "n-B"; lit "n-I"; lit "O"; lit "O"; lit "v-B"]
                          (ind - 1)
                        <> lit "O")).
Proof.
  apply (decode_segments_start_exactly (lit "abcde")
           [lit "n-B"; lit "n-I"; lit "O"; lit "O"; lit "v-B"]).
  simpl. lia.
Defined.

(** C2. For a tag list of length L no longer than the sentence, the
    segments the decode loop produces, concatenated in order, are
    [sent[:L]]: each of the first L characters is in exactly one segment
    and the order of the characters is kept. *)
Theorem decode_segments_concat (sent : pystr) (tags : list pystr) :
  (length tags <= length sent)%nat ->
  exists segs tags_out,
    LacTask.decode sent tags = Ok (segs, tags_out)
    /\ concat segs = Py.slice_to sent (Z.of_nat (length tags)).
Proof.
  intros Hlen.
  destruct (decode_correct sent tags Hlen)
    as (segs & tags_out & Hdec & _ & _ & Hcat & _).
  exists segs, tags_out. split; [exact Hdec |].
  rewrite slice_to_nonneg by lia. rewrite Nat2Z.id. exact Hcat.
Qed.

Lemma decode_segments_concat_witness :
  exists segs tags_out,
    LacTask.decode (lit "abcde") [lit "n-B"; lit "n-I"; lit "O"]
    = Ok (segs, tags_out)
    /\ concat segs = Py.slice_to (lit "abcde") 3.
Proof.
  apply (decode_segments_concat (lit "abcde") [lit "n-B"; lit "n-I"; lit "O"]).
  simpl. lia.
Defined.

(** What a successful decode returns. *)
Lemma decode_ok_facts (sent : pystr) (tags segs tags_out : list pystr) :
  LacTask.decode sent tags = Ok (segs, tags_out) ->
  segs = Spec.segments sent tags
  /\ tags_out
     = map (fun a => Spec.before_dash (Spec.tag_at tags a))
         (Spec.segment_starts tags (length tags))
  /\ concat segs = take (length tags) sent
  /\ Spec.seg_starts 0 segs = Spec.segment_starts tags (length tags).
Proof.
  intros Hdec.
  destruct (decode_correct sent tags (decode_ok_bound _ _ _ _ Hdec))
    as (segs' & tags_out' & Hdec' & Hfacts).
  rewrite Hdec in Hdec'. injection Hdec' as <- <-. exact Hfacts.
Qed.

Lemma lookup_tags_ok (id2tag_dict : gmap pystr pystr) (indices : list Z) :
  Forall (fun index => is_Some (id2tag_dict !! Py.str_of_int index)) indices ->
  exists tags,
    LacTask.lookup_tags id2tag_dict indices = Ok tags
    /\ length tags = length indices.
Proof.
  induction 1 as [| index indices [tag Htag] _ (tags & Htags & Hlen)]; simpl.
  - exists []. split; reflexivity.
  - unfold Py.dict_getitem. rewrite Htag, Htags. simpl.
    exists (tag :: tags). split; [reflexivity | simpl; congruence].
Qed.

(** The records of a successful run: record [i] is built from the tags
    looked up for sentence [i] and from the decode of that sentence. *)
Lemma postprocess_record_decode (id2tag_dict : gmap pystr pystr)
    (inputs : LacTask.model_outputs) (results : list LacTask.single_result)
    (i : nat) (r : LacTask.single_result) :
  LacTask._postprocess id2tag_dict inputs = Ok results ->
  results !! i = Some r ->
  exists sent pred len tags,
    LacTask.in_text inputs !! i = Some sent
    /\ LacTask.in_result inputs !! i = Some pred
    /\ LacTask.in_lens inputs !! i = Some len
    /\ LacTask.lookup_tags id2tag_dict (Py.slice_to pred len) = Ok tags
    /\ LacTask.decode sent tags = Ok (LacTask.res_segs r, LacTask.res_tags r)
    /\ LacTask.res_text r = sent.
Proof.
  intros Hpost Hr.
  destruct (postprocess_records _ _ _ Hpost) as [_ Hrec].
  destruct (Hrec i r Hr) as (sent & pred & len & Hsent & Hpred & Hlen & Hdec).
  destruct (decode_sentence_ok _ _ _ _ _ Hdec) as (tags & Htags & Hd & Htext).
  exists sent, pred, len, tags. repeat split; assumption.
Qed.

(** C3. Every record [_postprocess] returns (also one whose decoded tag
    list is empty) has a 'segs' list and a 'tags' list of the same
    length, and the k-th entry of 'tags' is the coarse form of the
    per-character tag at the index where the k-th segment starts. *)
Theorem postprocess_tags_aligned (id2tag_dict : gmap pystr pystr)
    (inputs : LacTask.model_outputs) (results : list LacTask.single_result)
    (i : nat) (r : LacTask.single_result) :
  LacTask._postprocess id2tag_dict inputs = Ok results ->
  results !! i = Some r ->
  exists pred len tags,
    LacTask.in_result inputs !! i = Some pred
    /\ LacTask.in_lens inputs !! i = Some len
    /\ LacTask.lookup_tags id2tag_dict (Py.slice_to pred len) = Ok tags
    /\ length (LacTask.res_segs r) = length (LacTask.res_tags r)
    /\ LacTask.res_tags r
       = map (fun start => Spec.before_dash (Spec.tag_at tags start))
           (Spec.seg_starts 0 (LacTask.res_segs r)).
Proof.
  intros Hpost Hr.
  destruct (postprocess_record_decode _ _ _ _ _ Hpost Hr)
    as (sent & pred & len & tags & _ & Hpred & Hlen & Htags & Hdec & _).
  destruct (decode_ok_facts _ _ _ _ Hdec) as (_ & Hout & _ & Hst).
  exists pred, len, tags. repeat split; try assumption.
  - rewrite Hout, length_map, <- Hst, seg_starts_length. reflexivity.
  - rewrite Hst. exact Hout.
Qed.

(** C6. Every entry of a record's 'tags' list is the coarse form of one
    of the sentence's per-character tags: that tag itself when it has no
    '-', and otherwise what precedes its first '-'. *)
Theorem postprocess_tags_coarse (id2tag_dict : gmap pystr pystr)
    (inputs : LacTask.model_outputs) (results : list LacTask.single_result)
    (i : nat) (r : LacTask.single_result) :
  LacTask._postprocess id2tag_dict inputs = Ok results ->
  results !! i = Some r ->
  exists pred len tags,
    LacTask.in_result inputs !! i = Some pred
    /\ LacTask.in_lens inputs !! i = Some len
    /\ LacTask.lookup_tags id2tag_dict (Py.slice_to pred len) = Ok tags
    /\ forall entry, entry ∈ LacTask.res_tags r ->
         exists tag,
           tag ∈ tags
           /\ LacTask.coarse_tag tag = Ok entry
           /\ (((45%N ∉ tag) /\ entry = tag)
               \/ (exists rest, tag = entry ++ 45%N :: rest /\ (45%N ∉ entry))).
Proof.
  intros Hpost Hr.
  destruct (postprocess_record_decode _ _ _ _ _ Hpost Hr)
    as (sent & pred & len & tags & _ & Hpred & Hlen & Htags & Hdec & _).
  destruct (decode_ok_facts _ _ _ _ Hdec) as (_ & Hout & _ & _).
  exists pred, len, tags. repeat split; try assumption.
  intros entry Hentry. rewrite Hout in Hentry.
  apply list_elem_of_In, in_map_iff in Hentry.
  destruct Hentry as (a & <- & Ha).
  apply list_elem_of_In, segment_starts_elem in Ha. destruct Ha as [Ha _].
  destruct (lookup_lt_is_Some_2 tags a Ha) as [tag Htag].
  exists tag. unfold Spec.tag_at. rewrite Htag. simpl default.
  split; [apply list_elem_of_lookup; exists a; exact Htag |].
  split; [apply coarse_tag_ok |].
  destruct (decide (45%N ∈ tag)) as [Hin | Hnot].
  - right. destruct (before_dash_with tag Hin) as [rest Hrest].
    exists rest. split; [exact Hrest | apply before_dash_no_dash].
  - left. split; [exact Hnot | apply before_dash_without; exact Hnot].
Qed.

Lemma range_S (n : nat) :
  LacTask.range (S n) = LacTask.range n ++ [Z.of_nat n].
Proof.
  unfold LacTask.range. rewrite seq_S, map_app. reflexivity.
Qed.

(** A loop over [range(len(l))] that reads [l[i]] is a map over [l]. *)
Lemma mapM_range {X B : Type} (l : list X) (f : Z -> result B)
    (g : X -> result B) :
  (forall i x, l !! i = Some x -> f (Z.of_nat i) = g x) ->
  mapM f (LacTask.range (length l)) = mapM g l.
Proof.
  induction l as [| x l IH] using rev_ind; intros Hfg; [reflexivity |].
  rewrite length_app. simpl length. rewrite Nat.add_1_r, range_S.
  rewrite !mapM_app, IH.
  - simpl. rewrite (Hfg (length l) x); [reflexivity |].
    apply list_lookup_middle. reflexivity.
  - intros i y Hy. apply Hfg. apply lookup_app_l_Some. exact Hy.
Qed.

(** C7. With the three lists 'text', 'result' and 'lens' of the same
    length n, [_postprocess] is the map of the per-sentence decode over
    the sentences: it returns n records in the order of the inputs,
    record i is the decode of (text[i], result[i], lens[i]) alone and its
    'text' is the i-th input string. *)
Theorem postprocess_per_sentence (id2tag_dict : gmap pystr pystr)
    (inputs : LacTask.model_outputs) :
  length (LacTask.in_text inputs) = length (LacTask.in_lens inputs) ->
  length (LacTask.in_result inputs) = length (LacTask.in_lens inputs) ->
  LacTask._postprocess id2tag_dict inputs
  = mapM (fun s => decode_sentence id2tag_dict (fst (fst s)) (snd (fst s)) (snd s))
      (sentences inputs)
  /\ forall results,
       LacTask._postprocess id2tag_dict inputs = Ok results ->
       length results = length (LacTask.in_lens inputs)
       /\ forall i r, results !! i = Some r ->
            exists sent pred len,
              LacTask.in_text inputs !! i = Some sent
              /\ LacTask.in_result inputs !! i = Some pred
              /\ LacTask.in_lens inputs !! i = Some len
              /\ decode_sentence id2tag_dict sent pred len = Ok r
              /\ LacTask.res_text r = sent.
Proof.
  intros Htext Hresult. split.
  - rewrite postprocess_mapM.
    replace (length (LacTask.in_lens inputs)) with (length (sentences inputs)).
    + apply mapM_range. intros i [[sent pred] len] Hs.
      unfold sentences in Hs.
      apply lookup_zip_with_Some in Hs.
      destruct Hs as ([sent' pred'] & len' & Heq & Hsp & Hlen).
      injection Heq as <- <- <-.
      apply lookup_zip_with_Some in Hsp.
      destruct Hsp as (sent' & pred' & Heq & Hsent & Hpred).
      injection Heq as <- <-.
      apply process_sentence_decode; assumption.
    + unfold sentences. rewrite !length_zip_with. lia.
  - intros results Hpost.
    destruct (postprocess_records _ _ _ Hpost) as [Hlen Hrec].
    split; [exact Hlen |].
    intros i r Hr.
    destruct (Hrec i r Hr) as (sent & pred & len & Hsent & Hpred & Hl & Hdec).
    exists sent, pred, len. repeat split; try assumption.
    destruct (decode_sentence_ok _ _ _ _ _ Hdec) as (tags & _ & _ & Ht).
    exact Ht.
Qed.

Example postprocess_demo :
  LacTask._postprocess demo_id2tag demo_inputs = Ok demo_results.
Proof. vm_compute. reflexivity. Qed.

Lemma postprocess_tags_aligned_witness :
  LacTask._postprocess demo_id2tag demo_inputs = Ok demo_results
  /\ exists pred len tags,
       LacTask.in_result demo_inputs !! 1%nat = Some pred
       /\ LacTask.in_lens demo_inputs !! 1%nat = Some len
       /\ LacTask.lookup_tags demo_id2tag (Py.slice_to pred len) = Ok tags
       /\ length [lit "d"; lit "e"] = length [lit "O"; lit "n"]
       /\ [lit "O"; lit "n"]
          = map (fun start => Spec.before_dash (Spec.tag_at tags start))
              (Spec.seg_starts 0 [lit "d"; lit "e"]).
Proof.
  split; [vm_compute; reflexivity |].
  apply (postprocess_tags_aligned demo_id2tag demo_inputs demo_results 1
           {| LacTask.res_text := lit "de";
              LacTask.res_segs := [lit "d"; lit "e"];
              LacTask.res_tags := [lit "O"; lit "n"] |}).
  - vm_compute. reflexivity.
  - reflexivity.
Defined.

Lemma postprocess_tags_coarse_witness :
  exists pred len tags,
    LacTask.in_result demo_inputs !! 0%nat = Some pred
    /\ LacTask.in_lens demo_inputs !! 0%nat = Some len
    /\ LacTask.lookup_tags demo_id2tag (Py.slice_to pred len) = Ok tags
    /\ forall entry, entry ∈ [lit "n"; lit "O"] ->
         exists tag,
           tag ∈ tags
           /\ LacTask.coarse_tag tag = Ok entry
           /\ (((45%N ∉ tag) /\ entry = tag)
               \/ (exists rest, tag = entry ++ 45%N :: rest /\ (45%N ∉ entry))).
Proof.
  apply (postprocess_tags_coarse demo_id2tag demo_inputs demo_results 0
           {| LacTask.res_text := lit "abc";
              LacTask.res_segs := [lit "ab"; lit "c"];
              LacTask.res_tags := [lit "n"; lit "O"] |}).
  - vm_compute. reflexivity.
  - reflexivity.
Defined.

Lemma postprocess_per_sentence_witness :
  LacTask._postprocess demo_id2tag demo_inputs
  = mapM (fun s => decode_sentence demo_id2tag (fst (fst s)) (snd (fst s)) (snd s))
      (sentences demo_inputs)
  /\ forall results,
       LacTask._postprocess demo_id2tag demo_inputs = Ok results ->
       length results = length (LacTask.in_lens demo_inputs)
       /\ forall i r, results !! i = Some r ->
            exists sent pred len,
              LacTask.in_text demo_inputs !! i = Some sent
              /\ LacTask.in_result demo_inputs !! i = Some pred
              /\ LacTask.in_lens demo_inputs !! i = Some len
              /\ decode_sentence demo_id2tag sent pred len = Ok r
              /\ LacTask.res_text r = sent.
Proof.
  apply (postprocess_per_sentence demo_id2tag demo_inputs); reflexivity.
Defined.

(** *** Safety of [_postprocess] *)

(** C8 (amended). When for every sentence index i the length [lens[i]]
    is between 0 and [len(sents[i])] and every prediction id of
    [preds[i][:lens[i]]], as a string, is a key of the id-to-tag dict,
    every indexing operation of [_postprocess] ([sent[ind]],
    [tags[ind - 1]], the id-to-tag lookup) succeeds: the run returns
    records and raises nothing. *)
Theorem postprocess_safe (id2tag_dict : gmap pystr pystr)
    (inputs : LacTask.model_outputs) :
  postprocess_pre id2tag_dict inputs ->
  Forall (fun len => 0 <= len) (LacTask.in_lens inputs) ->
  exists results, LacTask._postprocess id2tag_dict inputs = Ok results.
Proof.
  intros Hpre Hnonneg. rewrite postprocess_mapM.
  apply mapM_all_ok. intros z Hz.
  apply range_elem in Hz. destruct Hz as (i & -> & Hi).
  destruct (lookup_lt_is_Some_2 _ i Hi) as [len Hlen].
  destruct (Hpre i len Hlen) as (sent & pred & Hsent & Hpred & Hle & Hkeys).
  assert (H0 : 0 <= len).
  { rewrite Forall_forall in Hnonneg. apply Hnonneg.
    apply list_elem_of_lookup. exists i. exact Hlen. }
  rewrite (process_sentence_decode _ _ i sent pred len Hsent Hpred Hlen).
  unfold decode_sentence.
  destruct (lookup_tags_ok _ _ Hkeys) as (tags & -> & Htl). cbn [bind].
  assert (Hbound : (length tags <= length sent)%nat).
  { pose proof (slice_to_length_le pred len H0). lia. }
  destruct (decode_correct sent tags Hbound) as (segs & tags_out & -> & _).
  cbn [bind]. eexists. reflexivity.
Qed.

Lemma postprocess_safe_witness :
  exists results, LacTask._postprocess demo_id2tag demo_inputs = Ok results.
Proof.
  apply (postprocess_safe demo_id2tag demo_inputs).
  - intros [| [| i]] len Hlen; simpl in Hlen; [| | discriminate];
      injection Hlen as <-.
    + exists (lit "abc"), [0; 1; 2]. repeat split; [vm_compute; discriminate |].
      repeat constructor; vm_compute; eexists; reflexivity.
    + exists (lit "de"), [2; 0; 2]. repeat split; [vm_compute; discriminate |].
      repeat constructor; vm_compute; eexists; reflexivity.
  - repeat constructor; lia.
Defined.

(** C8 as stated fails: the stated preconditions hold for a negative
    length, and [sent[1]] raises [IndexError]. *)
Lemma postprocess_pre_not_safe :
  postprocess_pre demo_id2tag negative_len_inputs
  /\ LacTask._postprocess demo_id2tag negative_len_inputs = Raise IndexError.
Proof.
  split; [| vm_compute; reflexivity].
  intros [| i] len Hlen; simpl in Hlen; [| discriminate].
  injection Hlen as <-.
  exists (lit "a"), [2; 2; 2]. repeat split; [vm_compute; discriminate |].
  repeat constructor; vm_compute; eexists; reflexivity.
Qed.

(** *** Sentences without tags *)

(** C9. A sentence whose decoded tag list is empty gives, without any
    exception, the record with its text, no segment and no tag.  The
    empty input string is such a sentence: its encoding has no id and
    length zero, and [_postprocess] returns its empty record. *)
Theorem postprocess_empty_tags (id2tag_dict : gmap pystr pystr) :
  (forall inputs i sent pred len,
     LacTask.in_text inputs !! i = Some sent ->
     LacTask.in_result inputs !! i = Some pred ->
     LacTask.in_lens inputs !! i = Some len ->
     LacTask.lookup_tags id2tag_dict (Py.slice_to pred len) = Ok [] ->
     LacTask.process_sentence id2tag_dict inputs (Z.of_nat i)
     = Ok (empty_record sent))
  /\ (forall q2b_vocab word_vocab kwargs,
        LacTask.read_one q2b_vocab word_vocab kwargs [] = ([], 0))
  /\ (forall pred,
        LacTask._postprocess id2tag_dict
          {| LacTask.in_text := [[]];
             LacTask.in_result := [pred];
             LacTask.in_lens := [0] |}
        = Ok [empty_record []]).
Proof.
  split; [| split].
  - intros inputs i sent pred len Hsent Hpred Hlen Htags.
    rewrite (process_sentence_decode _ _ i sent pred len Hsent Hpred Hlen).
    unfold decode_sentence. rewrite Htags. reflexivity.
  - intros q2b_vocab word_vocab kwargs. unfold LacTask.read_one.
    replace (Py.slice_to [] (LacTask.max_seq_len kwargs)) with (@nil N);
      [reflexivity |].
    unfold Py.slice_to. destruct (_ <? 0); rewrite take_nil; reflexivity.
  - intros pred. reflexivity.
Qed.

Lemma postprocess_empty_tags_witness :
  LacTask.process_sentence demo_id2tag
    {| LacTask.in_text := [lit "abc"];
       LacTask.in_result := [[]];
       LacTask.in_lens := [3] |} 0
  = Ok (empty_record (lit "abc")).
Proof.
  apply (proj1 (postprocess_empty_tags demo_id2tag)
           {| LacTask.in_text := [lit "abc"];
              LacTask.in_result := [[]];
              LacTask.in_lens := [3] |} 0%nat (lit "abc") [] 3);
    reflexivity.
Defined.

(** ** The text-to-id encoding *)

Lemma read_tokens_map (q2b_vocab word_vocab : gmap pystr vocab_value)
    (input_tokens : pystr) (ids : list (option vocab_value)) :
  LacTask.read_tokens q2b_vocab word_vocab input_tokens ids
  = ids ++ map (char_id q2b_vocab word_vocab) input_tokens.
Proof.
  revert ids. induction input_tokens as [| c rest IH]; intros ids; simpl.
  - rewrite app_nil_r. reflexivity.
  - rewrite IH, <- app_assoc. reflexivity.
Qed.

Lemma read_map (q2b_vocab word_vocab : gmap pystr vocab_value)
    (kwargs : gmap pystr Z) (inputs : list pystr) :
  LacTask.read q2b_vocab word_vocab kwargs inputs
  = map (LacTask.read_one q2b_vocab word_vocab kwargs) inputs.
Proof.
  induction inputs as [| input inputs IH]; simpl; [reflexivity |].
  rewrite IH. reflexivity.
Qed.

(** On strings the run of [read] over items of any type is [read]. *)
Lemma read_items_strings (q2b_vocab word_vocab : gmap pystr vocab_value)
    (kwargs : gmap pystr Z) (inputs : list pystr) :
  LacTask.read_items q2b_vocab word_vocab kwargs (map LacTask.PStr inputs)
  = Ok (LacTask.read q2b_vocab word_vocab kwargs inputs).
Proof.
  induction inputs as [| input inputs IH]; [reflexivity |].
  cbn [map LacTask.read_items LacTask.read_value bind LacTask.read].
  rewrite IH. reflexivity.
Qed.


(** ** The exceptions of [_preprocess] *)







(** C5. The text-to-id encoding stage of [_preprocess], the generator
    [read], yields for every input string, in order, the ids and the
    length of [input[:max_seq_len]]: the first [max_seq_len] characters
    for a [max_seq_len] that counts characters, the first 64 when the
    keyword is absent.  Each kept character [c] is mapped to the
    word-vocabulary id of [q2b_vocab.get(c, c)], to the id of "OOV" when
    that form is not in the word vocabulary, and the length is the number
    of kept characters.  [_preprocess] runs it on the list of the
    strings. *)
Theorem read_encoding (q2b_vocab word_vocab : gmap pystr vocab_value)
    (kwargs : gmap pystr Z) (inputs : list pystr) :
  let kept := fun input => Py.slice_to input (LacTask.max_seq_len kwargs) in
  let encode := fun input =>
    (map (char_id q2b_vocab word_vocab) (kept input),
     Z.of_nat (length (kept input))) in
  LacTask.read q2b_vocab word_vocab kwargs inputs = map encode inputs
  /\ LacTask.read_all q2b_vocab word_vocab kwargs
       (LacTask.PList (map LacTask.PStr inputs))
     = Ok (map encode inputs)
  /\ (forall input,
        LacTask.read_one q2b_vocab word_vocab kwargs input = encode input)
  /\ (0 <= LacTask.max_seq_len kwargs ->
      forall input,
        kept input = take (Z.to_nat (LacTask.max_seq_len kwargs)) input)
  /\ (kwargs !! lit "max_seq_len" = None ->
      LacTask.max_seq_len kwargs = 64
      /\ forall input, kept input = take 64 input)
  /\ (forall c,
        let normalized :=
          default (VStr [c]) (q2b_vocab !! ([c] : pystr)) in
        char_id q2b_vocab word_vocab c
        = match normalized with
          | VStr token =>
              match word_vocab !! token with
              | Some id => Some id
              | None => word_vocab !! lit "OOV"
              end
          | VInt _ => word_vocab !! lit "OOV"
          end).
Proof.
  intros kept encode.
  assert (Hone : forall input,
            LacTask.read_one q2b_vocab word_vocab kwargs input = encode input).
  { intros input. unfold LacTask.read_one. rewrite read_tokens_map. simpl.
    rewrite length_map. reflexivity. }
  assert (Hread : LacTask.read q2b_vocab word_vocab kwargs inputs
                  = map encode inputs).
  { rewrite read_map. apply map_ext. exact Hone. }
  split; [exact Hread |]. split; [| split; [exact Hone | split; [| split]]].
  - cbn [LacTask.read_all]. rewrite read_items_strings, Hread. reflexivity.
  - intros Hmax input. unfold kept. apply slice_to_nonneg. exact Hmax.
  - intros Habsent. unfold kept, LacTask.max_seq_len. rewrite Habsent.
    split; [reflexivity | intros input; reflexivity].
  - intros c. unfold char_id, LacTask.q2b_get, LacTask.word_get.
    destruct (q2b_vocab !! [c]) as [[token | n] |]; reflexivity.
Qed.

Lemma read_encoding_witness :
  LacTask.read demo_q2b_vocab demo_word_vocab (<[lit "max_seq_len" := 1]> ∅)
    [[65313%N; 66%N]; lit "B"]
  = [([Some (VStr (lit "7"))], 1); ([Some (VStr (lit "9"))], 1)]
  /\ Py.slice_to [65313%N; 66%N]
       (LacTask.max_seq_len (<[lit "max_seq_len" := 1]> ∅))
     = take (Z.to_nat (LacTask.max_seq_len (<[lit "max_seq_len" := 1]> ∅)))
         [65313%N; 66%N]
  /\ LacTask.max_seq_len ∅ = 64
  /\ Py.slice_to [65313%N; 66%N] (LacTask.max_seq_len ∅)
     = take 64 [65313%N; 66%N].
Proof.
  assert (Habsent : (∅ : gmap pystr Z) !! lit "max_seq_len" = None)
    by reflexivity.
  assert (Hmax : 0 <= LacTask.max_seq_len (<[lit "max_seq_len" := 1]> ∅))
    by (vm_compute; discriminate).
  split; [| split].
  - rewrite (proj1 (read_encoding demo_q2b_vocab demo_word_vocab
                      (<[lit "max_seq_len" := 1]> ∅)
                      [[65313%N; 66%N]; lit "B"])).
    vm_compute. reflexivity.
  - exact (proj1 (proj2 (proj2 (proj2
             (read_encoding demo_q2b_vocab demo_word_vocab
                (<[lit "max_seq_len" := 1]> ∅) [[65313%N; 66%N]]))))
             Hmax [65313%N; 66%N]).
  - destruct (proj1 (proj2 (proj2 (proj2 (proj2
                (read_encoding demo_q2b_vocab demo_word_vocab ∅
                   [[65313%N; 66%N]])))))
                Habsent) as [H64 Hkept].
    split; [exact H64 | exact (Hkept [65313%N; 66%N])].
Defined.

Example read_demo :
  LacTask.read demo_q2b_vocab demo_word_vocab (<[lit "max_seq_len" := 1]> ∅)
    [[65313%N; 66%N]; []; lit "B"]
  = [([Some (VStr (lit "7"))], 1); ([], 0); ([Some (VStr (lit "9"))], 1)].
Proof. vm_compute. reflexivity. Qed.

Example read_one_demo :
  LacTask.read_one demo_q2b_vocab demo_word_vocab ∅ [65313%N; 66%N]
  = ([Some (VStr (lit "7")); Some (VStr (lit "9"))], 2).
Proof. vm_compute. reflexivity. Qed.

Example read_one_truncates :
  LacTask.read_one demo_q2b_vocab demo_word_vocab
    (<[lit "max_seq_len" := 1]> ∅) [65313%N; 66%N]
  = ([Some (VStr (lit "7"))], 1).
Proof. vm_compute. reflexivity. Qed.

(** ** [load_vocab] *)

Lemma split_nonempty (sep : N) (s : pystr) : Py.split sep s <> [].
Proof.
  destruct s as [| c s]; simpl; [discriminate |].
  destruct (N.eqb c sep); [discriminate |].
  destruct (Py.split sep s); discriminate.
Qed.

Lemma split_single (sep : N) (s t : pystr) : Py.split sep s = [t] -> t = s.
Proof.
  revert t. induction s as [| c s IH]; simpl; intros t Ht.
  - congruence.
  - pose proof (split_nonempty sep s) as Hne.
    destruct (N.eqb c sep).
    + destruct (Py.split sep s); congruence.
    + destruct (Py.split sep s) as [| piece [| ? ?]]; try congruence.
      injection Ht as <-. rewrite (IH piece eq_refl). reflexivity.
Qed.

Section LoadVocabFacts.

Variable is_digit_char : N -> bool.

Lemma load_vocab_loop_spec (lines : list pystr) :
  forall (vocab : gmap pystr vocab_value) (reverse : option bool) (i : Z),
    load_vocab_loop is_digit_char vocab reverse i lines
    = if existsb malformed lines then Raise ValueError
      else Ok (enter vocab
                 (entries (default (reverse_flag is_digit_char lines) reverse)
                    i lines)).
Proof.
  induction lines as [| line rest IH]; intros vocab reverse i;
    [destruct reverse; reflexivity |].
  cbn [load_vocab_loop existsb entries reverse_flag].
  unfold load_vocab_step, entry_of. unfold malformed at 1.
  pose proof (split_nonempty 9 (Py.strip 10 line)) as Hterms.
  fold (terms_of line) in Hterms.
  destruct (terms_of line) as [| t0 [| t1 [| t2 terms]]]; cbn [bind];
    [congruence | | | reflexivity].
  - (* one field *)
    cbn [length Nat.leb orb fst snd]. rewrite IH.
    destruct (existsb malformed rest); [reflexivity |].
    destruct reverse; reflexivity.
  - (* two fields *)
    cbn [length Nat.leb orb].
    destruct reverse as [[|] |]; [| | destruct (isdigit is_digit_char t0)];
      cbn [bind default from_option id fst snd]; rewrite IH;
      destruct (existsb malformed rest); reflexivity.
Qed.

Lemma enter_app (vocab : gmap pystr vocab_value)
    (es1 es2 : list (pystr * vocab_value)) :
  enter vocab (es1 ++ es2) = enter (enter vocab es1) es2.
Proof. unfold enter. apply fold_left_app. Qed.

Lemma enter_lookup_other (es : list (pystr * vocab_value)) :
  forall (vocab : gmap pystr vocab_value) (k : pystr),
    k ∉ map fst es -> enter vocab es !! k = vocab !! k.
Proof.
  induction es as [| [k0 v0] es IH]; intros vocab k Hk; [reflexivity |].
  simpl in Hk. rewrite not_elem_of_cons in Hk. destruct Hk as [Hne Hk].
  unfold enter. simpl. fold (enter (<[k0 := v0]> vocab) es).
  rewrite IH by assumption. apply lookup_insert_ne. congruence.
Qed.

Lemma enter_lookup_last (vocab : gmap pystr vocab_value)
    (es1 es2 : list (pystr * vocab_value)) (k : pystr) (v : vocab_value) :
  k ∉ map fst es2 ->
  enter vocab (es1 ++ (k, v) :: es2) !! k = Some v.
Proof.
  intros Hk. rewrite enter_app. unfold enter at 1. simpl.
  fold (enter (<[k := v]> (enter vocab es1)) es2).
  rewrite enter_lookup_other by assumption. apply lookup_insert_eq.
Qed.

Lemma entries_app (reverse : bool) (lines1 lines2 : list pystr) :
  forall i,
    entries reverse i (lines1 ++ lines2)
    = entries reverse i lines1
      ++ entries reverse (i + Z.of_nat (length lines1)) lines2.
Proof.
  induction lines1 as [| line lines1 IH]; intros i.
  - simpl. rewrite Z.add_0_r. reflexivity.
  - cbn [app entries length]. rewrite IH.
    replace (i + 1 + Z.of_nat (length lines1))
      with (i + Z.of_nat (S (length lines1))) by lia.
    destruct (entry_of reverse i line); reflexivity.
Qed.

Lemma entries_keys (reverse : bool) (lines : list pystr) (k : pystr) :
  forall i,
    k ∈ map fst (entries reverse i lines) ->
    exists j line v,
      lines !! j = Some line
      /\ entry_of reverse (i + Z.of_nat j) line = Some (k, v).
Proof.
  induction lines as [| line lines IH]; intros i Hk; simpl in Hk.
  - apply elem_of_nil in Hk. contradiction.
  - destruct (entry_of reverse i line) as [[k0 v0] |] eqn:He.
    + simpl in Hk. apply elem_of_cons in Hk. destruct Hk as [-> | Hk].
      * exists 0%nat, line, v0. rewrite Z.add_0_r. split; [reflexivity | exact He].
      * destruct (IH _ Hk) as (j & line' & v & Hj & Hv).
        exists (S j), line', v. split; [exact Hj |].
        replace (i + Z.of_nat (S j)) with (i + 1 + Z.of_nat j) by lia.
        exact Hv.
    + destruct (IH _ Hk) as (j & line' & v & Hj & Hv).
      exists (S j), line', v. split; [exact Hj |].
      replace (i + Z.of_nat (S j)) with (i + 1 + Z.of_nat j) by lia.
      exact Hv.
Qed.

End LoadVocabFacts.

(** C10 (amended). [load_vocab] raises [ValueError] exactly when some
    line has three or more tab-separated fields, and raises nothing
    else.  Otherwise it returns the dict obtained by entering the lines
    in file order, a later line replacing the entry of an earlier line
    with the same key: a single-field line enters its stripped text with
    its 0-based index, a two-field line enters its fields in (value, key)
    order when the first field of the earliest two-field line is a
    non-empty string of digits and in (key, value) order otherwise.  So
    a line whose key no later line enters again is found in the dict as
    it was entered. *)
Theorem load_vocab_entries (is_digit_char : N -> bool) (lines : list pystr) :
  let reverse := reverse_flag is_digit_char lines in
  load_vocab is_digit_char lines
  = (if existsb malformed lines then Raise ValueError
     else Ok (enter ∅ (entries reverse 0 lines)))
  /\ (load_vocab is_digit_char lines = Raise ValueError
      <-> Exists (fun line => (3 <= length (terms_of line))%nat) lines)
  /\ (forall e, load_vocab is_digit_char lines = Raise e -> e = ValueError)
  /\ (forall vocab i line k v,
        load_vocab is_digit_char lines = Ok vocab ->
        lines !! i = Some line ->
        entry_of reverse (Z.of_nat i) line = Some (k, v) ->
        (forall j line' v', (i < j)%nat -> lines !! j = Some line' ->
           entry_of reverse (Z.of_nat j) line' <> Some (k, v')) ->
        vocab !! k = Some v)
  /\ (forall line t0, terms_of line = [t0] -> t0 = Py.strip 10 line).
Proof.
  intros reverse.
  assert (Heq : load_vocab is_digit_char lines
                = (if existsb malformed lines then Raise ValueError
                   else Ok (enter ∅ (entries reverse 0 lines)))).
  { unfold load_vocab. rewrite load_vocab_loop_spec. reflexivity. }
  split; [exact Heq |]. split; [| split; [| split]].
  - rewrite Heq, Exists_exists.
    destruct (existsb malformed lines) eqn:Hex.
    + apply existsb_exists in Hex. destruct Hex as (line & Hin & Hm).
      split; [intros _ | reflexivity].
      exists line. split; [apply list_elem_of_In; exact Hin |].
      apply Nat.leb_le. exact Hm.
    + split; [discriminate |]. intros (line & Hin & Hm). exfalso.
      assert (Hex' : existsb malformed lines = true); [| congruence].
      apply existsb_exists. exists line.
      split; [apply list_elem_of_In; exact Hin | apply Nat.leb_le; exact Hm].
  - intros e. rewrite Heq. destruct (existsb malformed lines); congruence.
  - intros vocab i line k v Hload Hline Hentry Hlater.
    rewrite Heq in Hload. destruct (existsb malformed lines); [discriminate |].
    injection Hload as <-.
    rewrite <- (take_drop_middle lines i line Hline).
    rewrite entries_app. cbn [entries].
    assert (Hi : length (take i lines) = i).
    { rewrite length_take. apply lookup_lt_Some in Hline. lia. }
    rewrite Hi, Z.add_0_l, Hentry.
    apply enter_lookup_last. intros Hk.
    apply entries_keys in Hk. destruct Hk as (j & line' & v' & Hj & Hv').
    rewrite lookup_drop in Hj.
    apply (Hlater (S i + j)%nat line' v'); [lia | exact Hj |].
    rewrite <- Hv'. f_equal. lia.
  - intros line t0 Hterms. unfold terms_of in Hterms.
    exact (split_single _ _ _ Hterms).
Qed.

Lemma load_vocab_entries_witness :
  (<[lit "a" := VInt 1]> (<[lit "a" := VInt 0]> ∅) : gmap pystr vocab_value)
    !! lit "a"
  = Some (VInt 1).
Proof.
  apply (proj1 (proj2 (proj2 (proj2
           (load_vocab_entries ascii_digit duplicate_lines))))
           (<[lit "a" := VInt 1]> (<[lit "a" := VInt 0]> ∅))
           1%nat (lit "a" ++ [10%N]) (lit "a") (VInt 1)).
  - reflexivity.
  - reflexivity.
  - reflexivity.
  - intros [| [| j]] line' v' Hj Hline; [lia | lia | discriminate Hline].
Defined.

(** C10 as stated fails: the first line has the single field "a" and
    index 0, and the returned dict maps "a" to 1, the index of the second
    line. *)
Lemma load_vocab_duplicate_key :
  duplicate_lines !! 0%nat = Some (lit "a" ++ [10%N])
  /\ terms_of (lit "a" ++ [10%N]) = [lit "a"]
  /\ exists vocab,
       load_vocab ascii_digit duplicate_lines = Ok vocab
       /\ vocab !! lit "a" = Some (VInt 1)
       /\ vocab !! lit "a" <> Some (VInt 0).
Proof.
  split; [reflexivity |]. split; [reflexivity |].
  exists (<[lit "a" := VInt 1]> (<[lit "a" := VInt 0]> ∅)).
  split; [reflexivity |].
  split; [vm_compute; reflexivity | vm_compute; discriminate].
Qed.

Example load_vocab_reversed :
  load_vocab ascii_digit
    [lit "0" ++ [9%N] ++ lit "n-B" ++ [10%N]; lit "1" ++ [9%N] ++ lit "O"]
  = Ok (<[lit "O" := VStr (lit "1")]> (<[lit "n-B" := VStr (lit "0")]> ∅)).
Proof. reflexivity. Qed.

Example load_vocab_not_reversed :
  load_vocab ascii_digit
    [lit "n-B" ++ [9%N] ++ lit "0" ++ [10%N]; lit "7" ++ [9%N] ++ lit "O"]
  = Ok (<[lit "7" := VStr (lit "O")]> (<[lit "n-B" := VStr (lit "0")]> ∅)).
Proof. reflexivity. Qed.

Example load_vocab_empty_first_field :
  load_vocab ascii_digit [[9%N] ++ lit "x" ++ [10%N]]
  = Ok (<[[] := VStr (lit "x")]> ∅).
Proof. reflexivity. Qed.

Example load_vocab_three_fields :
  load_vocab ascii_digit
    [lit "a" ++ [10%N]; lit "a" ++ [9%N] ++ lit "b" ++ [9%N] ++ lit "c"]
  = Raise ValueError.
Proof. reflexivity. Qed.

(** ** The outcome of a decode *)

Lemma getitem_raise {A : Type} (l : list A) (i : Z) (e : exn) :
  Py.getitem l i = Raise e -> e = IndexError.
Proof.
  unfold Py.getitem.
  destruct (_ <? 0); [congruence |].
  destruct (l !! _); congruence.
Qed.

Lemma str_getitem_raise (s : pystr) (i : Z) (e : exn) :
  Py.str_getitem s i = Raise e -> e = IndexError.
Proof.
  unfold Py.str_getitem.
  destruct (Py.getitem s i) as [c | e'] eqn:Hg; cbn [bind]; [discriminate |].
  intros He. injection He as <-. exact (getitem_raise _ _ _ Hg).
Qed.

Lemma loop_body_raise (sent : pystr) (tags : list pystr)
    (st : LacTask.loop_state) (ind : Z) (tag : pystr) (e : exn) :
  LacTask.loop_body sent tags st ind tag = Raise e -> e = IndexError.
Proof.
  unfold LacTask.loop_body, LacTask.begins_word. rewrite coarse_tag_ok.
  destruct (Py.str_getitem sent ind) as [c | e'] eqn:Hc; cbn [bind].
  - destruct (Py.str_eq (LacTask.parital_word st) []); [discriminate |].
    destruct (Py.endswith tag (lit "-B")); cbn [bind]; [discriminate |].
    destruct (Py.str_eq tag (lit "O")); cbn [bind]; [| discriminate].
    destruct (Py.getitem tags (ind - 1)) as [prev | e''] eqn:Hp; cbn [bind].
    + destruct (negb _); discriminate.
    + intros He. injection He as <-. exact (getitem_raise _ _ _ Hp).
  - apply str_getitem_raise in Hc. subst e'.
    destruct (Py.str_eq (LacTask.parital_word st) []); cbn [bind];
      [congruence |].
    destruct (Py.endswith tag (lit "-B")); cbn [bind]; [congruence |].
    destruct (Py.str_eq tag (lit "O")); cbn [bind]; [| congruence].
    destruct (Py.getitem tags (ind - 1)) as [prev | e''] eqn:Hp; cbn [bind].
    + destruct (negb _); congruence.
    + intros He. injection He as <-. exact (getitem_raise _ _ _ Hp).
Qed.

Lemma decode_loop_raise (sent : pystr) (tags : list pystr) (e : exn) :
  forall (rest : list pystr) (ind : Z) (st : LacTask.loop_state),
    LacTask.decode_loop sent tags rest ind st = Raise e -> e = IndexError.
Proof.
  induction rest as [| tag rest IH]; intros ind st; simpl; [discriminate |].
  destruct (LacTask.loop_body sent tags st ind tag) as [st' | e'] eqn:Hb;
    cbn [bind].
  - apply IH.
  - intros He. injection He as <-. exact (loop_body_raise _ _ _ _ _ _ Hb).
Qed.

Lemma decode_raise (sent : pystr) (tags : list pystr) (e : exn) :
  LacTask.decode sent tags = Raise e -> e = IndexError.
Proof.
  unfold LacTask.decode.
  destruct (LacTask.decode_loop sent tags tags 0 LacTask.loop_init)
    as [st | e'] eqn:Hl; cbn [bind]; [discriminate |].
  intros He. injection He as <-. exact (decode_loop_raise _ _ _ _ _ _ Hl).
Qed.

(** X1. The decode of a sentence returns exactly when there are no more
    tags than characters; with more tags it raises [IndexError], and it
    raises no other exception. *)
Theorem decode_returns_iff (sent : pystr) (tags : list pystr) :
  ((length tags <= length sent)%nat
   <-> exists out, LacTask.decode sent tags = Ok out)
  /\ ((length sent < length tags)%nat
      <-> LacTask.decode sent tags = Raise IndexError)
  /\ (forall e, LacTask.decode sent tags = Raise e -> e = IndexError).
Proof.
  assert (Hok : (length tags <= length sent)%nat
                <-> exists out, LacTask.decode sent tags = Ok out).
  { split.
    - intros Hle. destruct (decode_correct sent tags Hle)
        as (segs & tags_out & Hdec & _).
      exists (segs, tags_out). exact Hdec.
    - intros [[segs tags_out] Hdec]. exact (decode_ok_bound _ _ _ _ Hdec). }
  split; [exact Hok |]. split; [| apply decode_raise].
  split.
  - intros Hlt.
    destruct (LacTask.decode sent tags) as [out | e] eqn:Hdec.
    + assert (Hle : (length tags <= length sent)%nat)
        by (apply Hok; exists out; reflexivity).
      lia.
    + rewrite (decode_raise _ _ _ Hdec). reflexivity.
  - intros Hraise.
    destruct (Nat.lt_ge_cases (length sent) (length tags)) as [Hlt | Hge];
      [exact Hlt |].
    apply Hok in Hge. destruct Hge as [out Hout]. congruence.
Qed.

Lemma lookup_tags_inv (id2tag_dict : gmap pystr pystr) (indices : list Z)
    (tags : list pystr) :
  LacTask.lookup_tags id2tag_dict indices = Ok tags ->
  Forall2 (fun index tag => id2tag_dict !! Py.str_of_int index = Some tag)
    indices tags.
Proof.
  revert tags. induction indices as [| index indices IH]; intros tags; simpl.
  - intros Hl. injection Hl as <-. constructor.
  - unfold Py.dict_getitem.
    destruct (id2tag_dict !! Py.str_of_int index) as [tag |] eqn:Htag;
      cbn [bind]; [| discriminate].
    destruct (LacTask.lookup_tags id2tag_dict indices) as [tags' | e];
      cbn [bind]; [| discriminate].
    intros Hl. injection Hl as <-. constructor; [exact Htag | apply IH; reflexivity].
Qed.

Lemma lookup_tags_raise (id2tag_dict : gmap pystr pystr) (indices : list Z)
    (e : exn) :
  LacTask.lookup_tags id2tag_dict indices = Raise e ->
  e = KeyError
  /\ Exists (fun index => id2tag_dict !! Py.str_of_int index = None) indices.
Proof.
  induction indices as [| index indices IH]; simpl; [discriminate |].
  unfold Py.dict_getitem.
  destruct (id2tag_dict !! Py.str_of_int index) as [tag |] eqn:Htag;
    cbn [bind].
  - destruct (LacTask.lookup_tags id2tag_dict indices) as [tags' | e'];
      cbn [bind]; [discriminate |].
    intros He. injection He as <-. destruct (IH eq_refl) as [-> Hex].
    split; [reflexivity | apply Exists_cons_tl; exact Hex].
  - intros He. injection He as <-.
    split; [reflexivity | apply Exists_cons_hd; exact Htag].
Qed.

Lemma lookup_tags_outcome (id2tag_dict : gmap pystr pystr) (indices : list Z) :
  (Forall (fun index => is_Some (id2tag_dict !! Py.str_of_int index)) indices
   /\ exists tags, LacTask.lookup_tags id2tag_dict indices = Ok tags
                   /\ length tags = length indices)
  \/ (Exists (fun index => id2tag_dict !! Py.str_of_int index = None) indices
      /\ LacTask.lookup_tags id2tag_dict indices = Raise KeyError).
Proof.
  destruct (LacTask.lookup_tags id2tag_dict indices) as [tags | e] eqn:Hl.
  - left. apply lookup_tags_inv in Hl. split.
    + clear -Hl. induction Hl; constructor; [eexists; eassumption | assumption].
    + exists tags. split; [reflexivity |].
      symmetry. exact (Forall2_length _ _ _ Hl).
  - right. destruct (lookup_tags_raise _ _ _ Hl) as [-> Hex].
    split; [exact Hex | reflexivity].
Qed.

(** X2. The decode of one sentence raises [KeyError] exactly when some
    prediction id of the slice [pred[:len]] is not a key of the id-to-tag
    dict, also when the slice is longer than the sentence; it raises
    [IndexError] exactly when all ids are known and the slice is longer
    than the sentence; it raises nothing else. *)
Theorem decode_sentence_errors (id2tag_dict : gmap pystr pystr)
    (sent : pystr) (pred : list Z) (len : Z) :
  let ids := Py.slice_to pred len in
  (decode_sentence id2tag_dict sent pred len = Raise KeyError
   <-> Exists (fun index => id2tag_dict !! Py.str_of_int index = None) ids)
  /\ (decode_sentence id2tag_dict sent pred len = Raise IndexError
      <-> Forall (fun index => is_Some (id2tag_dict !! Py.str_of_int index)) ids
          /\ (length sent < length ids)%nat)
  /\ (forall e, decode_sentence id2tag_dict sent pred len = Raise e ->
        e = KeyError \/ e = IndexError).
Proof.
  intros ids. unfold decode_sentence. fold ids.
  destruct (lookup_tags_outcome id2tag_dict ids)
    as [(Hall & tags & Hl & Hlen) | (Hex & Hl)]; rewrite Hl; cbn [bind].
  - assert (Hnex : ~ Exists (fun index => id2tag_dict !! Py.str_of_int index = None) ids).
    { rewrite Exists_exists. intros (index & Hin & Hnone).
      rewrite Forall_forall in Hall. destruct (Hall index Hin) as [t Ht].
      congruence. }
    destruct (LacTask.decode sent tags) as [[segs tags_out] | e] eqn:Hdec;
      cbn [bind].
    + split; [split; [discriminate | intros H; contradiction] |].
      split; [| discriminate].
      split; [discriminate |]. intros [_ Hlt]. exfalso.
      apply decode_ok_bound in Hdec. lia.
    + rewrite (decode_raise _ _ _ Hdec) in *.
      split; [split; [discriminate | intros H; contradiction] |].
      split; [| intros e' He'; right; congruence].
      split; [| reflexivity]. intros _. split; [exact Hall |].
      destruct (Nat.lt_ge_cases (length sent) (length ids)) as [Hlt | Hge];
        [exact Hlt | exfalso].
      rewrite <- Hlen in Hge.
      destruct (decode_correct sent tags Hge) as (? & ? & Hok & _).
      congruence.
  - split; [split; [intros _; exact Hex | reflexivity] |].
    split; [| intros e' He'; left; congruence].
    split; [discriminate |]. intros [Hall _]. exfalso.
    rewrite Exists_exists in Hex. destruct Hex as (index & Hin & Hnone).
    rewrite Forall_forall in Hall. destruct (Hall index Hin) as [t Ht].
    congruence.
Qed.

(** ** What [_postprocess] reads of its lists *)

Lemma mapM_ext_in {A B : Type} (f g : A -> result B) (l : list A) :
  (forall x, x ∈ l -> f x = g x) -> mapM f l = mapM g l.
Proof.
  induction l as [| x l IH]; intros Hext; simpl; [reflexivity |].
  rewrite (Hext x) by (apply elem_of_cons; left; reflexivity).
  rewrite IH; [reflexivity |].
  intros x' Hx'. apply Hext. apply elem_of_cons. right. exact Hx'.
Qed.

Lemma getitem_take {A : Type} (l : list A) (n i : nat) :
  (i < n)%nat ->
  Py.getitem (take n l) (Z.of_nat i) = Py.getitem l (Z.of_nat i).
Proof.
  intros Hi. unfold Py.getitem.
  destruct (Z.ltb_spec (Z.of_nat i) 0) as [Hneg | _]; [lia |].
  destruct (Z.ltb_spec (Z.of_nat i) 0) as [Hneg | _]; [lia |].
  rewrite Nat2Z.id, lookup_take_lt by exact Hi. reflexivity.
Qed.

(** X3. [_postprocess] makes one record per entry of 'lens'.  A run that
    returns had a text and a prediction list for each of them, so a
    shorter 'text' or 'result' list makes it raise; and the entries of
    'text' and 'result' past the length of 'lens' are never read. *)
Theorem postprocess_reads_lens_many (id2tag_dict : gmap pystr pystr)
    (inputs : LacTask.model_outputs) :
  let n := length (LacTask.in_lens inputs) in
  (forall results,
     LacTask._postprocess id2tag_dict inputs = Ok results ->
     length results = n
     /\ (n <= length (LacTask.in_text inputs))%nat
     /\ (n <= length (LacTask.in_result inputs))%nat)
  /\ LacTask._postprocess id2tag_dict inputs
     = LacTask._postprocess id2tag_dict
         {| LacTask.in_text := take n (LacTask.in_text inputs);
            LacTask.in_result := take n (LacTask.in_result inputs);
            LacTask.in_lens := LacTask.in_lens inputs |}.
Proof.
  intros n. split.
  - intros results Hpost.
    destruct (postprocess_records _ _ _ Hpost) as [Hlen Hrec].
    split; [exact Hlen |].
    destruct (decide (n = 0%nat)) as [-> | Hn]; [split; lia |].
    assert (Hlast : is_Some (results !! (n - 1)%nat)).
    { apply lookup_lt_is_Some. rewrite Hlen. fold n. lia. }
    destruct Hlast as [r Hr].
    destruct (Hrec _ r Hr) as (sent & pred & len & Hsent & Hpred & _).
    apply lookup_lt_Some in Hsent, Hpred. split; lia.
  - rewrite !postprocess_mapM. cbn [LacTask.in_lens]. fold n.
    apply mapM_ext_in. intros z Hz.
    apply range_elem in Hz. destruct Hz as (i & -> & Hi).
    unfold LacTask.process_sentence.
    cbn [LacTask.in_text LacTask.in_result LacTask.in_lens].
    rewrite !getitem_take by exact Hi. reflexivity.
Qed.

Lemma postprocess_reads_lens_many_witness :
  length demo_results = length (LacTask.in_lens demo_inputs)
  /\ (length (LacTask.in_lens demo_inputs)
      <= length (LacTask.in_text demo_inputs))%nat
  /\ (length (LacTask.in_lens demo_inputs)
      <= length (LacTask.in_result demo_inputs))%nat.
Proof.
  apply (proj1 (postprocess_reads_lens_many demo_id2tag demo_inputs)
           demo_results).
  vm_compute. reflexivity.
Defined.

(** ** The segments of a record *)

Lemma str_getitem_ok (s : pystr) (i : Z) (c : pystr) :
  Py.str_getitem s i = Ok c -> exists x, c = [x].
Proof.
  unfold Py.str_getitem. destruct (Py.getitem s i) as [x | e]; cbn [bind];
    [| discriminate].
  intros Hc. injection Hc as <-. exists x. reflexivity.
Qed.

Lemma loop_body_nonempty (sent : pystr) (tags : list pystr)
    (st st' : LacTask.loop_state) (ind : Z) (tag : pystr) :
  LacTask.loop_body sent tags st ind tag = Ok st' ->
  Forall (fun seg => seg <> []) (LacTask.sent_out st) ->
  Forall (fun seg => seg <> []) (LacTask.sent_out st')
  /\ LacTask.parital_word st' <> [].
Proof.
  unfold LacTask.loop_body. rewrite coarse_tag_ok.
  destruct (Py.str_getitem sent ind) as [c | e] eqn:Hc; cbn [bind].
  2: { destruct (Py.str_eq _ []); [discriminate |].
       destruct (LacTask.begins_word tags ind tag) as [[|] | e']; discriminate. }
  destruct (str_getitem_ok _ _ _ Hc) as [x ->].
  destruct (Py.str_eq (LacTask.parital_word st) []) eqn:Hpw.
  - intros Hst Hall. injection Hst as <-. simpl. split; [exact Hall | discriminate].
  - apply bool_decide_eq_false in Hpw.
    destruct (LacTask.begins_word tags ind tag) as [[|] | e']; cbn [bind];
      [| | discriminate]; intros Hst Hall; injection Hst as <-; simpl.
    + split; [| discriminate]. apply Forall_app. split; [exact Hall |].
      constructor; [exact Hpw | constructor].
    + split; [exact Hall |]. intros Hnil. symmetry in Hnil.
      exact (app_cons_not_nil _ _ _ Hnil).
Qed.

Lemma decode_loop_nonempty (sent : pystr) (tags : list pystr) :
  forall (rest : list pystr) (ind : Z) (st st' : LacTask.loop_state),
    LacTask.decode_loop sent tags rest ind st = Ok st' ->
    Forall (fun seg => seg <> []) (LacTask.sent_out st) ->
    LacTask.parital_word st <> []
    \/ length (LacTask.tags_out st) = length (LacTask.sent_out st) ->
    Forall (fun seg => seg <> []) (LacTask.sent_out st')
    /\ (LacTask.parital_word st' <> []
        \/ length (LacTask.tags_out st') = length (LacTask.sent_out st')).
Proof.
  induction rest as [| tag rest IH]; intros ind st st' Hloop Hall Hpw.
  - simpl in Hloop. injection Hloop as <-. split; assumption.
  - cbn [LacTask.decode_loop] in Hloop.
    destruct (LacTask.loop_body sent tags st ind tag) as [st1 | e] eqn:Hb;
      cbn [bind] in Hloop; [| discriminate].
    destruct (loop_body_nonempty _ _ _ _ _ _ Hb Hall) as [Hall1 Hpw1].
    apply (IH _ _ _ Hloop Hall1). left. exact Hpw1.
Qed.

Lemma decode_segments_nonempty (sent : pystr) (tags segs tags_out : list pystr) :
  LacTask.decode sent tags = Ok (segs, tags_out) ->
  Forall (fun seg => seg <> []) segs.
Proof.
  unfold LacTask.decode.
  destruct (LacTask.decode_loop sent tags tags 0 LacTask.loop_init)
    as [st | e] eqn:Hloop; cbn [bind]; [| discriminate].
  destruct (decode_loop_nonempty _ _ _ _ _ _ Hloop) as [Hall Hpw];
    [constructor | right; reflexivity |].
  intros Hout. injection Hout as <- _.
  destruct (Nat.ltb_spec (length (LacTask.sent_out st))
              (length (LacTask.tags_out st))) as [Hlt | Hge]; [| exact Hall].
  apply Forall_app. split; [exact Hall |].
  constructor; [| constructor]. destruct Hpw as [Hpw | Heq]; [exact Hpw | lia].
Qed.

Lemma segment_starts_length (tags : list pystr) (n : nat) :
  (length (Spec.segment_starts tags n) <= n)%nat.
Proof.
  unfold Spec.segment_starts.
  pose proof (List.filter_length_le (Spec.starts_segment tags) (seq 0 n)) as H.
  rewrite length_seq in H. exact H.
Qed.

(** X4. In every record [_postprocess] returns, no segment is the empty
    string, and there are at most as many segments as the sentence has
    tags. *)
Theorem postprocess_segments_nonempty (id2tag_dict : gmap pystr pystr)
    (inputs : LacTask.model_outputs) (results : list LacTask.single_result)
    (i : nat) (r : LacTask.single_result) :
  LacTask._postprocess id2tag_dict inputs = Ok results ->
  results !! i = Some r ->
  Forall (fun seg => seg <> []) (LacTask.res_segs r)
  /\ exists pred len,
       LacTask.in_result inputs !! i = Some pred
       /\ LacTask.in_lens inputs !! i = Some len
       /\ (length (LacTask.res_segs r) <= length (Py.slice_to pred len))%nat.
Proof.
  intros Hpost Hr.
  destruct (postprocess_record_decode _ _ _ _ _ Hpost Hr)
    as (sent & pred & len & tags & _ & Hpred & Hlen & Htags & Hdec & _).
  split; [exact (decode_segments_nonempty _ _ _ _ Hdec) |].
  exists pred, len. split; [exact Hpred |]. split; [exact Hlen |].
  destruct (decode_ok_facts _ _ _ _ Hdec) as (_ & _ & _ & Hst).
  apply lookup_tags_inv, Forall2_length in Htags.
  rewrite <- (seg_starts_length 0), Hst, Htags.
  apply segment_starts_length.
Qed.

Lemma postprocess_segments_nonempty_witness :
  Forall (fun seg => seg <> []) [lit "ab"; lit "c"]
  /\ exists pred len,
       LacTask.in_result demo_inputs !! 0%nat = Some pred
       /\ LacTask.in_lens demo_inputs !! 0%nat = Some len
       /\ (length [lit "ab"; lit "c"] <= length (Py.slice_to pred len))%nat.
Proof.
  apply (postprocess_segments_nonempty demo_id2tag demo_inputs demo_results 0
           {| LacTask.res_text := lit "abc";
              LacTask.res_segs := [lit "ab"; lit "c"];
              LacTask.res_tags := [lit "n"; lit "O"] |}).
  - vm_compute. reflexivity.
  - reflexivity.
Defined.

Lemma before_dash_idem (tag : pystr) :
  Spec.before_dash (Spec.before_dash tag) = Spec.before_dash tag.
Proof. apply before_dash_without, before_dash_no_dash. Qed.

(** X5. No tag of a returned record contains a '-', and taking the
    coarse form of such a tag again leaves it unchanged. *)
Theorem postprocess_tags_dash_free (id2tag_dict : gmap pystr pystr)
    (inputs : LacTask.model_outputs) (results : list LacTask.single_result)
    (i : nat) (r : LacTask.single_result) (entry : pystr) :
  LacTask._postprocess id2tag_dict inputs = Ok results ->
  results !! i = Some r ->
  entry ∈ LacTask.res_tags r ->
  (45%N ∉ entry) /\ LacTask.coarse_tag entry = Ok entry.
Proof.
  intros Hpost Hr Hentry.
  destruct (postprocess_record_decode _ _ _ _ _ Hpost Hr)
    as (sent & pred & len & tags & _ & _ & _ & _ & Hdec & _).
  destruct (decode_ok_facts _ _ _ _ Hdec) as (_ & Hout & _ & _).
  rewrite Hout in Hentry.
  apply list_elem_of_In, in_map_iff in Hentry.
  destruct Hentry as (a & <- & _).
  split; [apply before_dash_no_dash |].
  rewrite coarse_tag_ok, before_dash_idem. reflexivity.
Qed.

Lemma postprocess_tags_dash_free_witness :
  (45%N ∉ lit "n") /\ LacTask.coarse_tag (lit "n") = Ok (lit "n").
Proof.
  apply (postprocess_tags_dash_free demo_id2tag demo_inputs demo_results 0
           {| LacTask.res_text := lit "abc";
              LacTask.res_segs := [lit "ab"; lit "c"];
              LacTask.res_tags := [lit "n"; lit "O"] |} (lit "n")).
  - vm_compute. reflexivity.
  - reflexivity.
  - apply elem_of_cons. left. reflexivity.
Defined.

(** ** What the decode does not depend on *)

(** X6. The prediction ids past position [lens[i]] of a sentence never
    influence the output: two batches with the same texts and
    non-negative lengths whose predictions agree on the first [lens[i]]
    ids of every sentence give the same result, the same exception
    included. *)
Theorem postprocess_ignores_padding (id2tag_dict : gmap pystr pystr)
    (text : list pystr) (result result' : list (list Z)) (lens : list Z) :
  Forall (fun len => 0 <= len) lens ->
  length result = length result' ->
  (forall i len pred pred',
     lens !! i = Some len -> result !! i = Some pred ->
     result' !! i = Some pred' ->
     take (Z.to_nat len) pred = take (Z.to_nat len) pred') ->
  LacTask._postprocess id2tag_dict
    {| LacTask.in_text := text; LacTask.in_result := result;
       LacTask.in_lens := lens |}
  = LacTask._postprocess id2tag_dict
      {| LacTask.in_text := text; LacTask.in_result := result';
         LacTask.in_lens := lens |}.
Proof.
  intros Hnonneg Hlen Hagree. rewrite !postprocess_mapM.
  cbn [LacTask.in_lens]. apply mapM_ext_in. intros z Hz.
  apply range_elem in Hz. destruct Hz as (i & -> & Hi).
  destruct (lookup_lt_is_Some_2 _ i Hi) as [len Hl].
  assert (H0 : 0 <= len).
  { rewrite Forall_forall in Hnonneg. apply Hnonneg.
    apply list_elem_of_lookup. exists i. exact Hl. }
  unfold LacTask.process_sentence.
  cbn [LacTask.in_text LacTask.in_result LacTask.in_lens].
  rewrite (getitem_nat lens i len Hl).
  destruct (result !! i) as [pred |] eqn:Hp.
  - assert (Hp' : is_Some (result' !! i)).
    { apply lookup_lt_is_Some. rewrite <- Hlen.
      apply lookup_lt_is_Some. eexists; exact Hp. }
    destruct Hp' as [pred' Hp'].
    rewrite (getitem_nat result i pred Hp), (getitem_nat result' i pred' Hp').
    cbn [bind]. rewrite !slice_to_nonneg by exact H0.
    rewrite (Hagree i len pred pred' Hl Hp Hp'). reflexivity.
  - assert (Hp' : result' !! i = None).
    { apply lookup_ge_None. rewrite <- Hlen. apply lookup_ge_None. exact Hp. }
    apply lookup_ge_None in Hp, Hp'.
    rewrite (getitem_nat_raise result i Hp), (getitem_nat_raise result' i Hp').
    reflexivity.
Qed.

Lemma postprocess_ignores_padding_witness :
  LacTask._postprocess demo_id2tag
    {| LacTask.in_text := [lit "abc"; lit "de"];
       LacTask.in_result := [[0; 1; 2]; [2; 0; 2]];
       LacTask.in_lens := [3; 2] |}
  = LacTask._postprocess demo_id2tag
      {| LacTask.in_text := [lit "abc"; lit "de"];
         LacTask.in_result := [[0; 1; 2; 7]; [2; 0; 9; 9]];
         LacTask.in_lens := [3; 2] |}.
Proof.
  apply (postprocess_ignores_padding demo_id2tag [lit "abc"; lit "de"]
           [[0; 1; 2]; [2; 0; 2]] [[0; 1; 2; 7]; [2; 0; 9; 9]] [3; 2]).
  - repeat constructor; lia.
  - reflexivity.
  - intros [| [| i]] len pred pred' Hl Hp Hp'; simpl in Hl, Hp, Hp';
      [| | discriminate]; injection Hl as <-; injection Hp as <-;
      injection Hp' as <-; reflexivity.
Defined.

Lemma loop_body_sent_app (sent extra : pystr) (tags : list pystr)
    (st : LacTask.loop_state) (i : nat) (tag : pystr) :
  (i < length sent)%nat ->
  LacTask.loop_body (sent ++ extra) tags st (Z.of_nat i) tag
  = LacTask.loop_body sent tags st (Z.of_nat i) tag.
Proof.
  intros Hi. destruct (lookup_lt_is_Some_2 sent i Hi) as [c Hc].
  unfold LacTask.loop_body.
  rewrite (str_getitem_nat sent i c Hc).
  rewrite (str_getitem_nat (sent ++ extra) i c)
    by (rewrite lookup_app_l by exact Hi; exact Hc).
  reflexivity.
Qed.

Lemma decode_loop_sent_app (sent extra : pystr) (tags : list pystr) :
  forall (rest : list pystr) (i : nat) (st : LacTask.loop_state),
    (i + length rest <= length sent)%nat ->
    LacTask.decode_loop (sent ++ extra) tags rest (Z.of_nat i) st
    = LacTask.decode_loop sent tags rest (Z.of_nat i) st.
Proof.
  induction rest as [| tag rest IH]; intros i st Hlen; [reflexivity |].
  cbn [LacTask.decode_loop]. simpl in Hlen.
  rewrite loop_body_sent_app by lia.
  destruct (LacTask.loop_body sent tags st (Z.of_nat i) tag) as [st' | e];
    cbn [bind]; [| reflexivity].
  replace (Z.of_nat i + 1) with (Z.of_nat (S i)) by lia.
  apply IH. lia.
Qed.

(** X7. The characters of the sentence past the last tag never influence
    the segments: with no more tags than characters, the decode of a
    longer sentence with the same first characters is the same. *)
Theorem decode_ignores_text_tail (sent extra : pystr) (tags : list pystr) :
  (length tags <= length sent)%nat ->
  LacTask.decode (sent ++ extra) tags = LacTask.decode sent tags.
Proof.
  intros Hlen. unfold LacTask.decode.
  change 0 with (Z.of_nat 0).
  rewrite decode_loop_sent_app by (simpl; exact Hlen). reflexivity.
Qed.

Lemma decode_ignores_text_tail_witness :
  LacTask.decode (lit "ab" ++ lit "cde") [lit "n-B"; lit "n-I"]
  = LacTask.decode (lit "ab") [lit "n-B"; lit "n-I"].
Proof.
  apply (decode_ignores_text_tail (lit "ab") (lit "cde") [lit "n-B"; lit "n-I"]).
  simpl. lia.
Defined.

(** ** A "-B" tag is a boundary *)

Lemma tag_at_app_l (t1 t2 : list pystr) (i : nat) :
  (i < length t1)%nat -> Spec.tag_at (t1 ++ t2) i = Spec.tag_at t1 i.
Proof.
  intros Hi. unfold Spec.tag_at. rewrite lookup_app_l by exact Hi. reflexivity.
Qed.

Lemma tag_at_app_r (t1 t2 : list pystr) (j : nat) :
  Spec.tag_at (t1 ++ t2) (length t1 + j) = Spec.tag_at t2 j.
Proof.
  unfold Spec.tag_at. rewrite lookup_app_r by lia.
  replace (length t1 + j - length t1)%nat with j by lia. reflexivity.
Qed.

Lemma filter_map_comm {A B : Type} (f : A -> B) (p : B -> bool) (l : list A) :
  List.filter p (map f l) = map f (List.filter (fun a => p (f a)) l).
Proof.
  induction l as [| a l IH]; simpl; [reflexivity |].
  destruct (p (f a)); simpl; rewrite IH; reflexivity.
Qed.

Lemma starts_segment_app_l (t1 t2 : list pystr) (i : nat) :
  (i < length t1)%nat ->
  Spec.starts_segment (t1 ++ t2) i = Spec.starts_segment t1 i.
Proof.
  intros Hi. destruct i as [| p]; [reflexivity |].
  unfold Spec.starts_segment.
  rewrite !tag_at_app_l by lia. reflexivity.
Qed.

Lemma starts_segment_app_r (t1 : list pystr) (tb : pystr) (t2 : list pystr)
    (j : nat) :
  Py.endswith tb (lit "-B") = true ->
  Spec.starts_segment (t1 ++ tb :: t2) (length t1 + j)
  = Spec.starts_segment (tb :: t2) j.
Proof.
  intros HB. destruct j as [| q].
  - rewrite Nat.add_0_r. simpl Spec.starts_segment at 2.
    destruct (length t1) as [| p] eqn:Hn; [reflexivity |].
    unfold Spec.starts_segment.
    replace (S p) with (length t1 + 0)%nat by lia.
    rewrite tag_at_app_r. unfold Spec.tag_at at 1. simpl. rewrite HB.
    reflexivity.
  - replace (length t1 + S q)%nat with (S (length t1 + q)) by lia.
    unfold Spec.starts_segment.
    replace (S (length t1 + q)) with (length t1 + S q)%nat by lia.
    rewrite !tag_at_app_r. reflexivity.
Qed.

Lemma segment_starts_app (t1 : list pystr) (tb : pystr) (t2 : list pystr) :
  Py.endswith tb (lit "-B") = true ->
  Spec.segment_starts (t1 ++ tb :: t2) (length t1 + length (tb :: t2))
  = Spec.segment_starts t1 (length t1)
    ++ map (Nat.add (length t1))
         (Spec.segment_starts (tb :: t2) (length (tb :: t2))).
Proof.
  intros HB. unfold Spec.segment_starts.
  rewrite seq_app, List.filter_app. f_equal.
  - apply List.filter_ext_in. intros a Ha. apply in_seq in Ha.
    apply starts_segment_app_l. lia.
  - rewrite Nat.add_0_l.
    change (seq (length t1) (length (tb :: t2)))
      with (seq (length t1) (length (tb :: t2))).
    rewrite <- (Nat.add_0_r (length t1)) at 1.
    rewrite <- (fmap_add_seq (length t1) 0 (length (tb :: t2))).
    change (Nat.add (length t1) <$> seq 0 (length (tb :: t2)))
      with (map (Nat.add (length t1)) (seq 0 (length (tb :: t2)))).
    rewrite filter_map_comm. f_equal.
    apply List.filter_ext. intros j. apply starts_segment_app_r. exact HB.
Qed.

Lemma cut_at_app (sent : pystr) (starts1 starts2 : list nat) (stop : nat) :
  Spec.cut_at sent (starts1 ++ starts2) stop
  = Spec.cut_at sent starts1 (hd stop starts2)
    ++ Spec.cut_at sent starts2 stop.
Proof.
  induction starts1 as [| a starts1 IH]; [reflexivity |].
  cbn [app Spec.cut_at]. rewrite IH.
  destruct starts1; [destruct starts2 |]; reflexivity.
Qed.

Lemma substring_app_l (s1 s2 : pystr) (a b : nat) :
  (b <= length s1)%nat ->
  Spec.substring (s1 ++ s2) a b = Spec.substring s1 a b.
Proof.
  intros Hb. unfold Spec.substring.
  destruct (Nat.le_gt_cases a (length s1)) as [Ha | Ha].
  - rewrite drop_app_le by exact Ha.
    apply take_app_le. rewrite length_drop. lia.
  - replace (b - a)%nat with 0%nat by lia. reflexivity.
Qed.

Lemma substring_app_r (s1 s2 : pystr) (a b : nat) :
  Spec.substring (s1 ++ s2) (length s1 + a) (length s1 + b)
  = Spec.substring s2 a b.
Proof.
  unfold Spec.substring. rewrite drop_app_add.
  replace (length s1 + b - (length s1 + a))%nat with (b - a)%nat by lia.
  reflexivity.
Qed.

Lemma cut_at_app_l (s1 s2 : pystr) (starts : list nat) (stop : nat) :
  (stop <= length s1)%nat ->
  Forall (fun a => (a <= length s1)%nat) starts ->
  Spec.cut_at (s1 ++ s2) starts stop = Spec.cut_at s1 starts stop.
Proof.
  intros Hstop Hall. induction Hall as [| a starts Ha Hall IH]; [reflexivity |].
  cbn [Spec.cut_at]. rewrite IH. f_equal.
  apply substring_app_l. destruct Hall; assumption.
Qed.

Lemma cut_at_app_r (s1 s2 : pystr) (starts : list nat) (stop : nat) :
  Spec.cut_at (s1 ++ s2) (map (Nat.add (length s1)) starts) (length s1 + stop)
  = Spec.cut_at s2 starts stop.
Proof.
  induction starts as [| a starts IH]; [reflexivity |].
  cbn [map Spec.cut_at]. rewrite IH. f_equal.
  destruct starts; apply substring_app_r.
Qed.

(** X8. A tag that ends with "-B" is a hard boundary: when the tags of a
    sentence split into a first part that covers the characters [s1]
    and a second part that begins with a "-B" tag, the decode of the
    whole is the decode of the first part followed by the decode of the
    second part. *)
Theorem decode_splits_at_B (s1 s2 : pystr) (t1 : list pystr) (tb : pystr)
    (t2 segs1 tags1 segs2 tags2 : list pystr) :
  length s1 = length t1 ->
  Py.endswith tb (lit "-B") = true ->
  LacTask.decode s1 t1 = Ok (segs1, tags1) ->
  LacTask.decode s2 (tb :: t2) = Ok (segs2, tags2) ->
  LacTask.decode (s1 ++ s2) (t1 ++ tb :: t2)
  = Ok (segs1 ++ segs2, tags1 ++ tags2).
Proof.
  intros Hs1 HB Hd1 Hd2.
  pose proof (decode_ok_bound _ _ _ _ Hd2) as Hb2.
  destruct (decode_ok_facts _ _ _ _ Hd1) as (Hsegs1 & Htags1 & _ & _).
  destruct (decode_ok_facts _ _ _ _ Hd2) as (Hsegs2 & Htags2 & _ & _).
  destruct (decode_correct (s1 ++ s2) (t1 ++ tb :: t2))
    as (segs & tags_out & Hd & Hsegs & Htags & _).
  { rewrite !length_app. lia. }
  rewrite Hd. f_equal. f_equal.
  - rewrite Hsegs, Hsegs1, Hsegs2. unfold Spec.segments.
    rewrite length_app, (segment_starts_app t1 tb t2 HB), cut_at_app.
    rewrite <- Hs1. rewrite cut_at_app_r. f_equal.
    change (Spec.segment_starts (tb :: t2) (length (tb :: t2)))
      with (0%nat :: List.filter (Spec.starts_segment (tb :: t2))
                        (seq 1 (length t2))).
    cbn [map hd]. rewrite Nat.add_0_r.
    apply cut_at_app_l; [lia |].
    rewrite Forall_forall. intros a Ha.
    apply segment_starts_lt in Ha. lia.
  - rewrite Htags, Htags1, Htags2.
    rewrite length_app, (segment_starts_app t1 tb t2 HB), map_app, map_map.
    f_equal.
    + apply map_ext_in. intros a Ha.
      apply list_elem_of_In, segment_starts_lt in Ha.
      rewrite tag_at_app_l by exact Ha. reflexivity.
    + apply map_ext. intros j. rewrite tag_at_app_r. reflexivity.
Qed.

Lemma decode_splits_at_B_witness :
  LacTask.decode (lit "ab" ++ lit "cd")
    ([lit "O"; lit "O"] ++ lit "n-B" :: [lit "n-I"])
  = Ok ([lit "ab"] ++ [lit "cd"], [lit "O"] ++ [lit "n"]).
Proof.
  apply (decode_splits_at_B (lit "ab") (lit "cd") [lit "O"; lit "O"]
           (lit "n-B") [lit "n-I"] [lit "ab"] [lit "O"] [lit "cd"] [lit "n"]);
    reflexivity.
Defined.

(** ** The arguments of [_preprocess] *)

(** X9. Given a list of strings as its first argument, [_preprocess]
    returns, whatever [lazy_load] and the further arguments are: the
    ['text'] of its outputs is that list, and the dataset holds one
    example per string, in the order of the strings, made of the ids of
    the first [max_seq_len] characters of the string and of their
    number.  Given one string it returns what it returns for the list of
    that one string. *)
Theorem preprocess_strings (q2b_vocab word_vocab : gmap pystr vocab_value)
    (kwargs : gmap pystr Z) (strings : list pystr) (s : pystr)
    (rest : list LacTask.pyval) :
  let encode := fun input =>
    let kept := Py.slice_to input (LacTask.max_seq_len kwargs) in
    (map (char_id q2b_vocab word_vocab) kept, Z.of_nat (length kept)) in
  LacTask._preprocess q2b_vocab word_vocab kwargs
    (LacTask.PList (map LacTask.PStr strings) :: rest)
  = Ok {| LacTask.out_text := LacTask.PList (map LacTask.PStr strings);
          LacTask.out_data_loader := Ok (map encode strings) |}
  /\ LacTask._preprocess q2b_vocab word_vocab kwargs (LacTask.PStr s :: rest)
     = Ok {| LacTask.out_text := LacTask.PList [LacTask.PStr s];
             LacTask.out_data_loader := Ok [encode s] |}.
Proof.
  intros encode.
  assert (Hone : forall input,
            LacTask.read_one q2b_vocab word_vocab kwargs input = encode input).
  { intros input. unfold LacTask.read_one. rewrite read_tokens_map. simpl.
    rewrite length_map. reflexivity. }
  assert (Hlist : forall inputs,
            LacTask._preprocess q2b_vocab word_vocab kwargs
              (LacTask.PList (map LacTask.PStr inputs) :: rest)
            = Ok {| LacTask.out_text := LacTask.PList (map LacTask.PStr inputs);
                    LacTask.out_data_loader := Ok (map encode inputs) |}).
  { intros inputs. unfold LacTask._preprocess.
    change (Py.getitem (LacTask.PList (map LacTask.PStr inputs) :: rest) 0)
      with (Ok (LacTask.PList (map LacTask.PStr inputs))).
    cbn [bind LacTask.check_inputs LacTask.is_str LacTask.is_list negb andb
         LacTask.read_all].
    rewrite read_items_strings, read_map, (map_ext _ _ Hone).
    unfold LacTask.load_dataset.
    destruct (LacTask.lazy_load kwargs); reflexivity. }
  split; [apply Hlist |].
  exact (Hlist [s]).
Qed.

Lemma preprocess_strings_witness :
  LacTask._preprocess demo_q2b_vocab demo_word_vocab
    (<[lit "max_seq_len" := 1]> ∅)
    (LacTask.PList (map LacTask.PStr [[65313%N; 66%N]; lit "B"]) :: [])
  = Ok {| LacTask.out_text :=
            LacTask.PList [LacTask.PStr [65313%N; 66%N]; LacTask.PStr (lit "B")];
          LacTask.out_data_loader :=
            Ok [([Some (VStr (lit "7"))], 1); ([Some (VStr (lit "9"))], 1)] |}.
Proof.
  rewrite (proj1 (preprocess_strings demo_q2b_vocab demo_word_vocab
                    (<[lit "max_seq_len" := 1]> ∅)
                    [[65313%N; 66%N]; lit "B"] [] [])).
  vm_compute. reflexivity.
Defined.

(** ** The lengths and ids [read] yields *)

Lemma slice_to_length_le_all {A : Type} (l : list A) (n : Z) :
  (length (Py.slice_to l n) <= length l)%nat.
Proof.
  unfold Py.slice_to. destruct (n <? 0); rewrite length_take; lia.
Qed.

Lemma read_one_fst (q2b_vocab word_vocab : gmap pystr vocab_value)
    (kwargs : gmap pystr Z) (input : pystr) :
  fst (LacTask.read_one q2b_vocab word_vocab kwargs input)
  = map (char_id q2b_vocab word_vocab)
      (Py.slice_to input (LacTask.max_seq_len kwargs)).
Proof.
  unfold LacTask.read_one. rewrite read_tokens_map. reflexivity.
Qed.

Lemma read_one_snd (q2b_vocab word_vocab : gmap pystr vocab_value)
    (kwargs : gmap pystr Z) (input : pystr) :
  snd (LacTask.read_one q2b_vocab word_vocab kwargs input)
  = Z.of_nat (length (Py.slice_to input (LacTask.max_seq_len kwargs))).
Proof.
  unfold LacTask.read_one. rewrite read_tokens_map. simpl.
  rewrite length_map. reflexivity.
Qed.

(** X10. Whatever [max_seq_len] is, also negative, the length [read]
    yields for an input is the number of ids it yields, lies between 0
    and the length of the input, is at most a non-negative
    [max_seq_len], and is the length of the input when that is at most
    [max_seq_len]. *)
Theorem read_one_lens_bounds (q2b_vocab word_vocab : gmap pystr vocab_value)
    (kwargs : gmap pystr Z) (input : pystr) :
  let ids := fst (LacTask.read_one q2b_vocab word_vocab kwargs input) in
  let lens := snd (LacTask.read_one q2b_vocab word_vocab kwargs input) in
  lens = Z.of_nat (length ids)
  /\ 0 <= lens <= Z.of_nat (length input)
  /\ (0 <= LacTask.max_seq_len kwargs -> lens <= LacTask.max_seq_len kwargs)
  /\ (Z.of_nat (length input) <= LacTask.max_seq_len kwargs ->
      lens = Z.of_nat (length input)).
Proof.
  intros ids lens. unfold ids, lens. rewrite read_one_fst, read_one_snd.
  rewrite length_map.
  pose proof (slice_to_length_le_all input (LacTask.max_seq_len kwargs)) as Hle.
  split; [reflexivity |]. split; [lia |]. split.
  - intros Hm. rewrite slice_to_nonneg, length_take by exact Hm. lia.
  - intros Hm. rewrite slice_to_nonneg, length_take by lia. lia.
Qed.

Lemma read_one_lens_bounds_witness :
  snd (LacTask.read_one demo_q2b_vocab demo_word_vocab
         (<[lit "max_seq_len" := 1]> ∅) [65313%N; 66%N])
  <= LacTask.max_seq_len (<[lit "max_seq_len" := 1]> ∅).
Proof.
  apply (proj1 (proj2 (proj2 (read_one_lens_bounds demo_q2b_vocab
                                demo_word_vocab
                                (<[lit "max_seq_len" := 1]> ∅)
                                [65313%N; 66%N])))).
  vm_compute. discriminate.
Defined.

(** X11. Every id [read] yields is an entry of the word vocabulary or the
    value of [word_vocab.get("OOV")]; so with an "OOV" entry in the
    vocabulary no id is [None]. *)
Theorem read_one_ids_from_vocab (q2b_vocab word_vocab : gmap pystr vocab_value)
    (kwargs : gmap pystr Z) (input : pystr) :
  let ids := fst (LacTask.read_one q2b_vocab word_vocab kwargs input) in
  Forall (fun id => id = word_vocab !! lit "OOV"
                    \/ exists token v, word_vocab !! token = Some v
                                       /\ id = Some v) ids
  /\ (is_Some (word_vocab !! lit "OOV") -> Forall is_Some ids).
Proof.
  intros ids. unfold ids. rewrite read_one_fst.
  assert (Hchar : forall c,
            char_id q2b_vocab word_vocab c = word_vocab !! lit "OOV"
            \/ exists token v, word_vocab !! token = Some v
                               /\ char_id q2b_vocab word_vocab c = Some v).
  { intros c. unfold char_id, LacTask.word_get.
    destruct (LacTask.q2b_get q2b_vocab [c]) as [token | n]; [| left; reflexivity].
    destruct (word_vocab !! token) as [v |] eqn:Hv; [| left; reflexivity].
    right. exists token, v. split; [exact Hv | reflexivity]. }
  split.
  - rewrite Forall_forall. intros id Hid.
    apply list_elem_of_In, in_map_iff in Hid. destruct Hid as (c & <- & _).
    apply Hchar.
  - intros Hoov. rewrite Forall_forall. intros id Hid.
    apply list_elem_of_In, in_map_iff in Hid. destruct Hid as (c & <- & _).
    destruct (Hchar c) as [-> | (token & v & _ & ->)]; [exact Hoov | eexists; reflexivity].
Qed.

Lemma read_one_ids_from_vocab_witness :
  Forall is_Some
    (fst (LacTask.read_one demo_q2b_vocab demo_word_vocab ∅ [65313%N; 66%N])).
Proof.
  apply (proj2 (read_one_ids_from_vocab demo_q2b_vocab demo_word_vocab ∅
                  [65313%N; 66%N])).
  vm_compute. eexists. reflexivity.
Defined.

Lemma slice_to_Forall2 {A : Type} (R : A -> A -> Prop) (l k : list A) (n : Z) :
  Forall2 R l k -> Forall2 R (Py.slice_to l n) (Py.slice_to k n).
Proof.
  intros HR. unfold Py.slice_to. rewrite (Forall2_length _ _ _ HR).
  destruct (n <? 0); apply Forall2_take; exact HR.
Qed.

(** X12. The ids depend on the text only through its q2b-normalized
    characters: replacing characters by the character the q2b table maps
    them to (itself not a key of the table) changes neither the ids nor
    the length. *)
Theorem read_one_q2b_invariant (q2b_vocab word_vocab : gmap pystr vocab_value)
    (kwargs : gmap pystr Z) (input input' : pystr) :
  Forall2 (fun c c' =>
             c = c'
             \/ (q2b_vocab !! ([c] : pystr) = Some (VStr [c'])
                 /\ q2b_vocab !! ([c'] : pystr) = None))
    input input' ->
  LacTask.read_one q2b_vocab word_vocab kwargs input
  = LacTask.read_one q2b_vocab word_vocab kwargs input'.
Proof.
  intros Hnorm.
  apply (slice_to_Forall2 _ _ _ (LacTask.max_seq_len kwargs)) in Hnorm.
  rewrite (surjective_pairing (LacTask.read_one _ _ _ input)).
  rewrite (surjective_pairing (LacTask.read_one _ _ _ input')).
  rewrite !read_one_fst, !read_one_snd.
  rewrite (Forall2_length _ _ _ Hnorm). f_equal.
  induction Hnorm as [| c c' l l' Hc _ IH]; [reflexivity |].
  simpl. rewrite IH. f_equal.
  destruct Hc as [-> | [Hq Hq']]; [reflexivity |].
  unfold char_id, LacTask.q2b_get. rewrite Hq, Hq'. reflexivity.
Qed.

Lemma read_one_q2b_invariant_witness :
  LacTask.read_one demo_q2b_vocab demo_word_vocab ∅ [65313%N; 66%N]
  = LacTask.read_one demo_q2b_vocab demo_word_vocab ∅ [65%N; 66%N].
Proof.
  apply (read_one_q2b_invariant demo_q2b_vocab demo_word_vocab ∅
           [65313%N; 66%N] [65%N; 66%N]).
  constructor; [right; split; reflexivity |].
  constructor; [left; reflexivity | constructor].
Defined.

(** ** From the input strings to the records *)

Lemma slice_to_is_take {A : Type} (l : list A) (n : Z) :
  exists j, Py.slice_to l n = take j l.
Proof.
  unfold Py.slice_to. destruct (n <? 0); eexists; reflexivity.
Qed.

Lemma take_of_prefix {A : Type} (l : list A) (j p : nat) :
  take (min (length (take j l)) p) l = take p (take j l).
Proof.
  rewrite take_take, length_take.
  destruct (Nat.le_gt_cases (min p j) (length l)) as [Hle | Hgt].
  - f_equal. lia.
  - rewrite (take_ge l (min p j)) by lia. apply take_ge. lia.
Qed.

Lemma pipeline_lens (q2b_vocab word_vocab : gmap pystr vocab_value)
    (kwargs : gmap pystr Z) (inputs : list pystr) (i : nat) (len : Z) :
  map snd (LacTask.read q2b_vocab word_vocab kwargs inputs) !! i = Some len ->
  exists input,
    inputs !! i = Some input
    /\ len = Z.of_nat (length (Py.slice_to input (LacTask.max_seq_len kwargs))).
Proof.
  rewrite read_map, map_map.
  change (map ?f inputs) with (f <$> inputs).
  rewrite list_lookup_fmap.
  destruct (inputs !! i) as [input |]; simpl; [| discriminate].
  intros Hlen. injection Hlen as <-. exists input.
  split; [reflexivity | apply read_one_snd].
Qed.

(** X13. For a batch of input strings, the lengths [read] yields and
    prediction lists (one per input) whose ids are all keys of the
    id-to-tag dict, [_postprocess] raises nothing: it returns one record
    per input, in order, with the input as its text, and the segments of
    the record, concatenated, are the input truncated to [max_seq_len]
    and cut to the number of predictions. *)
Theorem pipeline_segments_spell_text
    (q2b_vocab word_vocab : gmap pystr vocab_value) (kwargs : gmap pystr Z)
    (id2tag_dict : gmap pystr pystr) (inputs : list pystr)
    (preds : list (list Z)) :
  length preds = length inputs ->
  Forall (Forall (fun index => is_Some (id2tag_dict !! Py.str_of_int index)))
    preds ->
  exists results,
    LacTask._postprocess id2tag_dict
      (pipeline_outputs q2b_vocab word_vocab kwargs inputs preds)
    = Ok results
    /\ length results = length inputs
    /\ forall i r, results !! i = Some r ->
         exists input pred,
           inputs !! i = Some input
           /\ preds !! i = Some pred
           /\ LacTask.res_text r = input
           /\ concat (LacTask.res_segs r)
              = take (length pred)
                  (Py.slice_to input (LacTask.max_seq_len kwargs)).
Proof.
  intros Hlen Hknown.
  set (outs := pipeline_outputs q2b_vocab word_vocab kwargs inputs preds).
  assert (Hn : length (LacTask.in_lens outs) = length inputs).
  { unfold outs, pipeline_outputs. cbn [LacTask.in_lens].
    rewrite read_map, !length_map. reflexivity. }
  assert (Hok : exists results, LacTask._postprocess id2tag_dict outs = Ok results).
  { rewrite postprocess_mapM. apply mapM_all_ok. intros z Hz.
    apply range_elem in Hz. destruct Hz as (i & -> & Hi).
    destruct (lookup_lt_is_Some_2 _ i Hi) as [len Hl].
    destruct (pipeline_lens _ _ _ _ _ _ Hl) as (input & Hin & ->).
    assert (Hp : is_Some (preds !! i)).
    { apply lookup_lt_is_Some. rewrite Hlen.
      apply lookup_lt_is_Some. eexists; exact Hin. }
    destruct Hp as [pred Hp].
    rewrite (process_sentence_decode _ outs i input pred _ Hin Hp Hl).
    unfold decode_sentence.
    assert (Hk : Forall (fun index => is_Some (id2tag_dict !! Py.str_of_int index))
                   (Py.slice_to pred
                      (Z.of_nat (length (Py.slice_to input
                                           (LacTask.max_seq_len kwargs)))))).
    { rewrite slice_to_nonneg by lia. apply Forall_take.
      rewrite Forall_forall in Hknown. apply Hknown.
      apply list_elem_of_lookup. exists i. exact Hp. }
    destruct (lookup_tags_ok _ _ Hk) as (tags & -> & Htl). cbn [bind].
    assert (Hbound : (length tags <= length input)%nat).
    { pose proof (slice_to_length_le pred
                    (Z.of_nat (length (Py.slice_to input
                                         (LacTask.max_seq_len kwargs))))) as H1.
      pose proof (slice_to_length_le_all input (LacTask.max_seq_len kwargs)).
      lia. }
    destruct (decode_correct input tags Hbound) as (segs & tags_out & -> & _).
    cbn [bind]. eexists. reflexivity. }
  destruct Hok as [results Hpost]. exists results.
  split; [exact Hpost |].
  destruct (postprocess_records _ _ _ Hpost) as [Hrl _].
  split; [rewrite Hrl; exact Hn |].
  intros i r Hr.
  destruct (postprocess_record_decode _ _ _ _ _ Hpost Hr)
    as (sent & pred & len & tags & Hsent & Hpred & Hl & Htags & Hdec & Htext).
  exists sent, pred. split; [exact Hsent |]. split; [exact Hpred |].
  split; [exact Htext |].
  destruct (pipeline_lens _ _ _ _ _ _ Hl) as (input & Hin & ->).
  cbn [outs pipeline_outputs LacTask.in_text] in Hsent.
  assert (input = sent) by congruence. subst input.
  destruct (decode_ok_facts _ _ _ _ Hdec) as (_ & _ & Hcat & _).
  rewrite Hcat.
  apply lookup_tags_inv, Forall2_length in Htags. rewrite <- Htags.
  rewrite slice_to_nonneg, Nat2Z.id, length_take by lia.
  destruct (slice_to_is_take sent (LacTask.max_seq_len kwargs)) as [j ->].
  apply take_of_prefix.
Qed.

Lemma pipeline_segments_spell_text_witness :
  exists results,
    LacTask._postprocess demo_id2tag
      (pipeline_outputs demo_q2b_vocab demo_word_vocab
         (<[lit "max_seq_len" := 2]> ∅) [lit "abc"; lit "d"] [[0; 1]; [2; 0]])
    = Ok results
    /\ length results = length [lit "abc"; lit "d"]
    /\ forall i r, results !! i = Some r ->
         exists input pred,
           [lit "abc"; lit "d"] !! i = Some input
           /\ [[0; 1]; [2; 0]] !! i = Some pred
           /\ LacTask.res_text r = input
           /\ concat (LacTask.res_segs r)
              = take (length pred)
                  (Py.slice_to input
                     (LacTask.max_seq_len (<[lit "max_seq_len" := 2]> ∅))).
Proof.
  apply (pipeline_segments_spell_text demo_q2b_vocab demo_word_vocab
           (<[lit "max_seq_len" := 2]> ∅) demo_id2tag
           [lit "abc"; lit "d"] [[0; 1]; [2; 0]]).
  - reflexivity.
  - repeat constructor; vm_compute; eexists; reflexivity.
Defined.

Example pipeline_demo :
  LacTask._postprocess demo_id2tag
    (pipeline_outputs demo_q2b_vocab demo_word_vocab
       (<[lit "max_seq_len" := 2]> ∅) [lit "abc"; lit "d"] [[0; 1]; [2; 0]])
  = Ok [ {| LacTask.res_text := lit "abc";
            LacTask.res_segs := [lit "ab"];
            LacTask.res_tags := [lit "n"] |};
         {| LacTask.res_text := lit "d";
            LacTask.res_segs := [lit "d"];
            LacTask.res_tags := [lit "O"] |} ].
Proof. vm_compute. reflexivity. Qed.

(** ** The entries of a loaded vocabulary *)

Lemma load_vocab_eq (is_digit_char : N -> bool) (lines : list pystr) :
  load_vocab is_digit_char lines
  = if existsb malformed lines then Raise ValueError
    else Ok (enter ∅ (entries (reverse_flag is_digit_char lines) 0 lines)).
Proof. unfold load_vocab. rewrite load_vocab_loop_spec. reflexivity. Qed.

Lemma entries_in (reverse : bool) (lines : list pystr) :
  forall (i : Z) (j : nat) (line : pystr) (e : pystr * vocab_value),
    lines !! j = Some line ->
    entry_of reverse (i + Z.of_nat j) line = Some e ->
    e ∈ entries reverse i lines.
Proof.
  induction lines as [| line0 lines IH]; intros i j line e Hj He;
    [rewrite lookup_nil in Hj; discriminate |].
  cbn [entries]. destruct j as [| j]; simpl in Hj.
  - injection Hj as ->. rewrite Z.add_0_r in He. rewrite He.
    apply elem_of_cons. left. reflexivity.
  - replace (i + Z.of_nat (S j)) with (i + 1 + Z.of_nat j) in He by lia.
    pose proof (IH _ _ _ _ Hj He) as Hin.
    destruct (entry_of reverse i line0);
      [apply elem_of_cons; right |]; exact Hin.
Qed.

Lemma entries_length (reverse : bool) (lines : list pystr) (i : Z) :
  (length (entries reverse i lines) <= length lines)%nat.
Proof.
  revert i. induction lines as [| line lines IH]; intros i; simpl; [lia |].
  specialize (IH (i + 1)). destruct (entry_of reverse i line); simpl; lia.
Qed.

(** The last line that enters a key. *)
Lemma entries_last_key (reverse : bool) (lines : list pystr) (k : pystr) :
  forall i,
    k ∈ map fst (entries reverse i lines) ->
    exists j line v,
      lines !! j = Some line
      /\ entry_of reverse (i + Z.of_nat j) line = Some (k, v)
      /\ forall j' line' v', (j < j')%nat -> lines !! j' = Some line' ->
           entry_of reverse (i + Z.of_nat j') line' <> Some (k, v').
Proof.
  induction lines as [| line lines IH]; intros i Hk; simpl in Hk.
  - apply elem_of_nil in Hk. contradiction.
  - destruct (decide (k ∈ map fst (entries reverse (i + 1) lines)))
      as [Hrest | Hrest].
    + destruct (IH _ Hrest) as (j & line' & v & Hj & Hv & Hlast).
      exists (S j), line', v. split; [exact Hj |]. split.
      * replace (i + Z.of_nat (S j)) with (i + 1 + Z.of_nat j) by lia.
        exact Hv.
      * intros [| j'] line'' v' Hlt Hj'; [lia |]. simpl in Hj'.
        replace (i + Z.of_nat (S j')) with (i + 1 + Z.of_nat j') by lia.
        apply (Hlast j' line'' v'); [lia | exact Hj'].
    + destruct (entry_of reverse i line) as [[k0 v0] |] eqn:He;
        [| contradiction].
      simpl in Hk. apply elem_of_cons in Hk.
      destruct Hk as [-> | Hk]; [| contradiction].
      exists 0%nat, line, v0. split; [reflexivity |]. split.
      * rewrite Z.add_0_r. exact He.
      * intros [| j'] line' v' Hlt Hj' He'; [lia |]. simpl in Hj'.
        apply Hrest.
        replace (i + Z.of_nat (S j')) with (i + 1 + Z.of_nat j') in He' by lia.
        pose proof (entries_in _ _ _ _ _ _ Hj' He') as Hin.
        apply list_elem_of_In. apply in_map_iff. exists (k0, v').
        split; [reflexivity | apply list_elem_of_In; exact Hin].
Qed.

Lemma enter_lookup_in (es : list (pystr * vocab_value)) :
  forall (vocab : gmap pystr vocab_value) (k : pystr) (v : vocab_value),
    enter vocab es !! k = Some v ->
    k ∈ map fst es \/ vocab !! k = Some v.
Proof.
  intros vocab k v Hv.
  destruct (decide (k ∈ map fst es)) as [Hin | Hnot]; [left; exact Hin |].
  right. rewrite <- Hv. symmetry. apply enter_lookup_other. exact Hnot.
Qed.

(** The entry of a line no later line overrides is in the dict. *)
Lemma entries_enter_last (reverse : bool) (lines : list pystr)
    (vocab : gmap pystr vocab_value) (i : nat) (line k : pystr)
    (v : vocab_value) :
  lines !! i = Some line ->
  entry_of reverse (Z.of_nat i) line = Some (k, v) ->
  (forall j line' v', (i < j)%nat -> lines !! j = Some line' ->
     entry_of reverse (Z.of_nat j) line' <> Some (k, v')) ->
  enter vocab (entries reverse 0 lines) !! k = Some v.
Proof.
  intros Hline Hentry Hlater.
  rewrite <- (take_drop_middle lines i line Hline).
  rewrite entries_app. cbn [entries].
  assert (Hi : length (take i lines) = i).
  { rewrite length_take. apply lookup_lt_Some in Hline. lia. }
  rewrite Hi, Z.add_0_l, Hentry.
  apply enter_lookup_last. intros Hk.
  apply entries_keys in Hk. destruct Hk as (j & line' & v' & Hj & Hv').
  rewrite lookup_drop in Hj.
  apply (Hlater (S i + j)%nat line' v'); [lia | exact Hj |].
  rewrite <- Hv'. f_equal. lia.
Qed.

(** Every entry of the returned dict was entered by a line that no later
    line overrides. *)
Lemma load_vocab_origin (is_digit_char : N -> bool) (lines : list pystr)
    (vocab : gmap pystr vocab_value) (k : pystr) (v : vocab_value) :
  load_vocab is_digit_char lines = Ok vocab ->
  vocab !! k = Some v ->
  exists i line,
    lines !! i = Some line
    /\ entry_of (reverse_flag is_digit_char lines) (Z.of_nat i) line
       = Some (k, v)
    /\ forall j line' v', (i < j)%nat -> lines !! j = Some line' ->
         entry_of (reverse_flag is_digit_char lines) (Z.of_nat j) line'
         <> Some (k, v').
Proof.
  rewrite load_vocab_eq. destruct (existsb malformed lines); [discriminate |].
  intros Hload Hk. injection Hload as <-.
  destruct (enter_lookup_in _ _ _ _ Hk) as [Hin | Hempty];
    [| rewrite lookup_empty in Hempty; discriminate].
  destruct (entries_last_key _ _ _ _ Hin) as (i & line & v0 & Hi & He & Hlast).
  rewrite Z.add_0_l in He.
  assert (Hlast' : forall j line' v', (i < j)%nat -> lines !! j = Some line' ->
            entry_of (reverse_flag is_digit_char lines) (Z.of_nat j) line'
            <> Some (k, v')).
  { intros j line' v' Hlt Hj. specialize (Hlast j line' v' Hlt Hj).
    rewrite Z.add_0_l in Hlast. exact Hlast. }
  pose proof (entries_enter_last _ _ ∅ _ _ _ _ Hi He Hlast') as Hv0.
  assert (v0 = v) by congruence. subst v0.
  exists i, line. split; [exact Hi |]. split; [exact He | exact Hlast'].
Qed.

Lemma enter_size (es : list (pystr * vocab_value)) :
  forall vocab : gmap pystr vocab_value,
    (size (enter vocab es) <= size vocab + length es)%nat.
Proof.
  induction es as [| [k v] es IH]; intros vocab; [simpl; lia |].
  unfold enter. simpl. fold (enter (<[k := v]> vocab) es).
  specialize (IH (<[k := v]> vocab)).
  pose proof (map_size_insert k v vocab) as Hs.
  destruct (vocab !! k); simpl in Hs; lia.
Qed.

(** X14. The dict [load_vocab] returns holds nothing but what the lines
    enter: each of its entries is the entry of a line that no later line
    overrides, and it has at most as many entries as the file has
    lines. *)
Theorem load_vocab_only_line_entries (is_digit_char : N -> bool)
    (lines : list pystr) (vocab : gmap pystr vocab_value) :
  load_vocab is_digit_char lines = Ok vocab ->
  (size vocab <= length lines)%nat
  /\ forall k v, vocab !! k = Some v ->
       exists i line,
         lines !! i = Some line
         /\ entry_of (reverse_flag is_digit_char lines) (Z.of_nat i) line
            = Some (k, v)
         /\ forall j line' v', (i < j)%nat -> lines !! j = Some line' ->
              entry_of (reverse_flag is_digit_char lines) (Z.of_nat j) line'
              <> Some (k, v').
Proof.
  intros Hload. split.
  - rewrite load_vocab_eq in Hload.
    destruct (existsb malformed lines); [discriminate |].
    injection Hload as <-.
    pose proof (enter_size (entries (reverse_flag is_digit_char lines) 0 lines) ∅)
      as Hsize.
    pose proof (entries_length (reverse_flag is_digit_char lines) lines 0).
    rewrite map_size_empty in Hsize. lia.
  - intros k v Hk. exact (load_vocab_origin _ _ _ _ _ Hload Hk).
Qed.

Lemma load_vocab_only_line_entries_witness :
  (size (<[lit "a" := VInt 1]> (<[lit "a" := VInt 0]> ∅)
         : gmap pystr vocab_value) <= length duplicate_lines)%nat
  /\ forall k v,
       (<[lit "a" := VInt 1]> (<[lit "a" := VInt 0]> ∅)
        : gmap pystr vocab_value) !! k = Some v ->
       exists i line,
         duplicate_lines !! i = Some line
         /\ entry_of (reverse_flag ascii_digit duplicate_lines) (Z.of_nat i) line
            = Some (k, v)
         /\ forall j line' v', (i < j)%nat ->
              duplicate_lines !! j = Some line' ->
              entry_of (reverse_flag ascii_digit duplicate_lines)
                (Z.of_nat j) line'
              <> Some (k, v').
Proof.
  apply (load_vocab_only_line_entries ascii_digit duplicate_lines).
  reflexivity.
Defined.

Lemma split_pieces_no_sep (sep : N) (s : pystr) :
  Forall (fun piece => sep ∉ piece) (Py.split sep s).
Proof.
  induction s as [| c s IH]; simpl.
  - constructor; [apply not_elem_of_nil | constructor].
  - destruct (N.eqb_spec c sep) as [-> | Hne].
    + constructor; [apply not_elem_of_nil | exact IH].
    + destruct (Py.split sep s) as [| piece pieces].
      * constructor; [| constructor].
        rewrite not_elem_of_cons. split; [congruence | apply not_elem_of_nil].
      * inversion IH as [| ? ? Hpiece Hpieces]; subst.
        constructor; [| exact Hpieces].
        rewrite not_elem_of_cons. split; [congruence | exact Hpiece].
Qed.

(** X15. In the dict [load_vocab] returns, no key contains a tab; a
    string value contains no tab either, and an int value is the index
    of a line of the file. *)
Theorem load_vocab_entry_shape (is_digit_char : N -> bool)
    (lines : list pystr) (vocab : gmap pystr vocab_value)
    (k : pystr) (v : vocab_value) :
  load_vocab is_digit_char lines = Ok vocab ->
  vocab !! k = Some v ->
  (9%N ∉ k)
  /\ match v with
     | VStr s => 9%N ∉ s
     | VInt n => 0 <= n < Z.of_nat (length lines)
     end.
Proof.
  intros Hload Hk.
  destruct (load_vocab_origin _ _ _ _ _ Hload Hk) as (i & line & Hi & He & _).
  apply lookup_lt_Some in Hi.
  unfold entry_of, terms_of in He.
  pose proof (split_pieces_no_sep 9 (Py.strip 10 line)) as Hpieces.
  destruct (Py.split 9 (Py.strip 10 line)) as [| t0 [| t1 [| t2 terms]]];
    try discriminate.
  - injection He as <- <-. inversion Hpieces; subst. split; [assumption | lia].
  - inversion Hpieces as [| ? ? H0 Hrest]; subst.
    inversion Hrest as [| ? ? H1 _]; subst.
    destruct (reverse_flag is_digit_char lines); injection He as <- <-;
      split; assumption.
Qed.

Lemma load_vocab_entry_shape_witness :
  (9%N ∉ lit "a")
  /\ 0 <= 1 < Z.of_nat (length duplicate_lines).
Proof.
  apply (load_vocab_entry_shape ascii_digit duplicate_lines
           (<[lit "a" := VInt 1]> (<[lit "a" := VInt 0]> ∅))
           (lit "a") (VInt 1)); reflexivity.
Defined.

(** ** Newlines at the end of a line *)

Lemma lstrip_snoc (c : N) (s : pystr) :
  Py.lstrip c (s ++ [c])
  = match Py.lstrip c s with
    | [] => []
    | _ :: _ => Py.lstrip c s ++ [c]
    end.
Proof.
  induction s as [| x s IH]; simpl.
  - rewrite N.eqb_refl. reflexivity.
  - destruct (N.eqb x c); [exact IH | reflexivity].
Qed.

Lemma strip_snoc (c : N) (s : pystr) :
  Py.strip c (s ++ [c]) = Py.strip c s.
Proof.
  unfold Py.strip. rewrite lstrip_snoc.
  destruct (Py.lstrip c s) as [| x s'] eqn:Hs; [reflexivity |].
  rewrite rev_app_distr. simpl rev at 1. cbn [app Py.lstrip].
  rewrite N.eqb_refl. reflexivity.
Qed.

Lemma load_vocab_loop_terms (is_digit_char : N -> bool)
    (lines lines' : list pystr) :
  Forall2 (fun l l' => terms_of l = terms_of l') lines lines' ->
  forall vocab reverse i,
    load_vocab_loop is_digit_char vocab reverse i lines
    = load_vocab_loop is_digit_char vocab reverse i lines'.
Proof.
  induction 1 as [| l l' lines lines' Hl _ IH]; intros vocab reverse i;
    [reflexivity |].
  cbn [load_vocab_loop]. unfold load_vocab_step. rewrite Hl.
  destruct (match terms_of l' with
            | [t0] => _
            | _ => _
            end) as [st | e]; cbn [bind]; [apply IH | reflexivity].
Qed.

(** The lines of a content that does not end with a newline, and the
    lines of that content with a newline added, differ in the newline
    of the last line only. *)
Lemma readlines_from_newline (content : pystr) :
  forall line : pystr,
    (content = [] -> line <> []) ->
    last content <> Some 10%N ->
    exists lines final,
      Py.readlines_from line content = lines ++ [final]
      /\ Py.readlines_from line (content ++ [10%N])
         = lines ++ [final ++ [10%N]].
Proof.
  induction content as [| c content IH]; intros line Hline Hend.
  - exists [], line.
    destruct line as [| x line]; [exfalso; apply Hline; reflexivity |].
    split; reflexivity.
  - assert (Hlast : last content <> Some 10%N).
    { destruct content as [| c' content']; [discriminate |].
      rewrite last_cons_cons in Hend. exact Hend. }
    cbn [app Py.readlines_from].
    destruct (N.eqb_spec c 10) as [-> | Hc].
    + destruct (IH []) as (lines & final & H1 & H2); [| exact Hlast |].
      { intros ->. exfalso. apply Hend. reflexivity. }
      exists ((line ++ [10%N]) :: lines), final.
      rewrite H1, H2. split; reflexivity.
    + apply IH; [| exact Hlast].
      intros _ Hnil. apply app_eq_nil in Hnil. destruct Hnil as [_ Hnil].
      discriminate.
Qed.

(** X16. Whether the last line of the vocabulary file ends with a
    newline makes no difference to what [load_vocab] returns or raises:
    a non-empty content that does not end with a newline is loaded as
    that content with a newline added. *)
Theorem load_vocab_trailing_newline (is_digit_char : N -> bool)
    (content : pystr) :
  content <> [] ->
  last content <> Some 10%N ->
  load_vocab is_digit_char (Py.readlines (content ++ [10%N]))
  = load_vocab is_digit_char (Py.readlines content).
Proof.
  intros Hcontent Hlast.
  destruct (readlines_from_newline content [])
    as (lines & final & H1 & H2); [congruence | exact Hlast |].
  unfold Py.readlines. rewrite H1, H2.
  unfold load_vocab. apply load_vocab_loop_terms.
  apply Forall2_app; [apply Forall2_same_length_lookup_2; [reflexivity |] |].
  - intros i l l' Hl Hl'. congruence.
  - constructor; [| constructor].
    unfold terms_of. rewrite strip_snoc. reflexivity.
Qed.

Lemma load_vocab_trailing_newline_witness :
  load_vocab ascii_digit (Py.readlines (lit "a" ++ [10%N] ++ lit "b" ++ [10%N]))
  = load_vocab ascii_digit (Py.readlines (lit "a" ++ [10%N] ++ lit "b")).
Proof.
  apply (load_vocab_trailing_newline ascii_digit
           (lit "a" ++ [10%N] ++ lit "b")).
  - discriminate.
  - vm_compute. discriminate.
Defined.

Example load_vocab_empty_line :
  load_vocab ascii_digit (Py.readlines []) = Ok ∅
  /\ load_vocab ascii_digit (Py.readlines [10%N]) = Ok {[ [] := VInt 0 ]}.
Proof. split; reflexivity. Qed.

(** ** A vocabulary of one word per line *)

Lemma lstrip_elem (c x : N) (s : pystr) : x ∈ Py.lstrip c s -> x ∈ s.
Proof.
  induction s as [| y s IH]; simpl; [intros H; exact H |].
  destruct (N.eqb y c); [| intros H; exact H].
  intros H. apply elem_of_cons. right. exact (IH H).
Qed.

Lemma strip_elem (c x : N) (s : pystr) : x ∈ Py.strip c s -> x ∈ s.
Proof.
  unfold Py.strip. intros H.
  apply list_elem_of_In, in_rev, list_elem_of_In in H.
  apply lstrip_elem in H.
  apply list_elem_of_In, in_rev, list_elem_of_In in H.
  exact (lstrip_elem _ _ _ H).
Qed.

Lemma split_without_sep (sep : N) (s : pystr) :
  sep ∉ s -> Py.split sep s = [s].
Proof.
  induction s as [| c s IH]; simpl; intros Hnot; [reflexivity |].
  rewrite not_elem_of_cons in Hnot. destruct Hnot as [Hne Hnot].
  destruct (N.eqb_spec c sep) as [-> | _]; [congruence |].
  rewrite IH by exact Hnot. reflexivity.
Qed.

Lemma terms_of_single (line : pystr) :
  9%N ∉ line -> terms_of line = [Py.strip 10 line].
Proof.
  intros Hnot. unfold terms_of. apply split_without_sep.
  intros Hin. apply Hnot. exact (strip_elem _ _ _ Hin).
Qed.

Lemma existsb_malformed_single (lines : list pystr) :
  Forall (fun line => 9%N ∉ line) lines -> existsb malformed lines = false.
Proof.
  induction 1 as [| line lines Hline _ IH]; [reflexivity |].
  simpl. rewrite IH. unfold malformed.
  rewrite (terms_of_single line Hline). reflexivity.
Qed.

Lemma entries_single (reverse : bool) (lines : list pystr) :
  Forall (fun line => 9%N ∉ line) lines ->
  forall i,
    map fst (entries reverse i lines) = map (Py.strip 10) lines.
Proof.
  induction 1 as [| line lines Hline _ IH]; intros i; [reflexivity |].
  cbn [entries]. unfold entry_of. rewrite (terms_of_single line Hline).
  simpl. rewrite IH. reflexivity.
Qed.

Lemma enter_size_fresh (es : list (pystr * vocab_value)) :
  forall vocab : gmap pystr vocab_value,
    NoDup (map fst es) ->
    (forall k, k ∈ map fst es -> vocab !! k = None) ->
    size (enter vocab es) = (size vocab + length es)%nat.
Proof.
  induction es as [| [k v] es IH]; intros vocab Hnd Hfresh; [simpl; lia |].
  simpl in Hnd. apply NoDup_cons in Hnd. destruct Hnd as [Hk Hnd].
  unfold enter. simpl. fold (enter (<[k := v]> vocab) es).
  rewrite IH.
  - rewrite map_size_insert_None; [lia |].
    apply Hfresh. simpl. apply elem_of_cons. left. reflexivity.
  - exact Hnd.
  - intros k' Hk'. rewrite lookup_insert_ne by (intros ->; contradiction).
    apply Hfresh. simpl. apply elem_of_cons. right. exact Hk'.
Qed.

Lemma index_vocab_entry (reverse : bool) (lines : list pystr) (i : nat)
    (line : pystr) :
  Forall (fun line => 9%N ∉ line) lines ->
  lines !! i = Some line ->
  entry_of reverse (Z.of_nat i) line
  = Some (Py.strip 10 line, VInt (Z.of_nat i)).
Proof.
  intros Htab Hi. unfold entry_of. rewrite terms_of_single; [reflexivity |].
  rewrite Forall_forall in Htab. apply Htab.
  apply list_elem_of_lookup. exists i. exact Hi.
Qed.

Lemma index_vocab_value (is_digit_char : N -> bool) (lines : list pystr)
    (vocab : gmap pystr vocab_value) (k : pystr) (v : vocab_value) :
  Forall (fun line => 9%N ∉ line) lines ->
  load_vocab is_digit_char lines = Ok vocab ->
  vocab !! k = Some v ->
  exists i line,
    lines !! i = Some line /\ k = Py.strip 10 line /\ v = VInt (Z.of_nat i).
Proof.
  intros Htab Hload Hk.
  destruct (load_vocab_origin _ _ _ _ _ Hload Hk) as (i & line & Hi & He & _).
  rewrite (index_vocab_entry _ _ _ _ Htab Hi) in He.
  injection He as <- <-. exists i, line. repeat split. exact Hi.
Qed.

Lemma index_vocab_lookup (is_digit_char : N -> bool) (lines : list pystr)
    (vocab : gmap pystr vocab_value) (i : nat) (line : pystr) :
  Forall (fun line => 9%N ∉ line) lines ->
  NoDup (map (Py.strip 10) lines) ->
  load_vocab is_digit_char lines = Ok vocab ->
  lines !! i = Some line ->
  vocab !! Py.strip 10 line = Some (VInt (Z.of_nat i)).
Proof.
  intros Htab Hnd Hload Hi.
  rewrite load_vocab_eq, existsb_malformed_single in Hload by exact Htab.
  injection Hload as <-.
  apply (entries_enter_last _ lines ∅ i line);
    [exact Hi | exact (index_vocab_entry _ _ _ _ Htab Hi) |].
  intros j line' v' Hlt Hj He.
  rewrite (index_vocab_entry _ _ _ _ Htab Hj) in He. injection He as Heq _.
  assert (Hij : i = j); [| lia].
  apply (NoDup_lookup _ i j (Py.strip 10 line) Hnd).
  - change (map (Py.strip 10) lines) with (Py.strip 10 <$> lines).
    rewrite list_lookup_fmap, Hi. reflexivity.
  - change (map (Py.strip 10) lines) with (Py.strip 10 <$> lines).
    rewrite list_lookup_fmap, Hj. simpl. congruence.
Qed.

Lemma index_vocab_size (is_digit_char : N -> bool) (lines : list pystr)
    (vocab : gmap pystr vocab_value) :
  Forall (fun line => 9%N ∉ line) lines ->
  NoDup (map (Py.strip 10) lines) ->
  load_vocab is_digit_char lines = Ok vocab ->
  size vocab = length lines.
Proof.
  intros Htab Hnd Hload.
  rewrite load_vocab_eq, existsb_malformed_single in Hload by exact Htab.
  injection Hload as <-. rewrite enter_size_fresh.
  - rewrite map_size_empty.
    rewrite <- (length_map fst), (entries_single _ _ Htab), length_map.
    reflexivity.
  - rewrite (entries_single _ _ Htab). exact Hnd.
  - intros k _. apply lookup_empty.
Qed.

(** X17. For a file without tabs whose lines are pairwise different
    once stripped (one word per line), [load_vocab] returns the dict
    that maps each stripped line to its 0-based index and nothing else;
    it has as many entries as the file has lines. *)
Theorem load_vocab_index_vocabulary (is_digit_char : N -> bool)
    (lines : list pystr) :
  Forall (fun line => 9%N ∉ line) lines ->
  NoDup (map (Py.strip 10) lines) ->
  exists vocab,
    load_vocab is_digit_char lines = Ok vocab
    /\ size vocab = length lines
    /\ forall k v,
         vocab !! k = Some v
         <-> exists i line,
               lines !! i = Some line
               /\ k = Py.strip 10 line
               /\ v = VInt (Z.of_nat i).
Proof.
  intros Htab Hnd.
  destruct (load_vocab is_digit_char lines) as [vocab | e] eqn:Hload.
  2: { rewrite load_vocab_eq, existsb_malformed_single in Hload by exact Htab.
       discriminate. }
  exists vocab. split; [reflexivity |].
  split; [exact (index_vocab_size _ _ _ Htab Hnd Hload) |].
  intros k v. split.
  - exact (index_vocab_value _ _ _ _ _ Htab Hload).
  - intros (i & line & Hi & -> & ->).
    exact (index_vocab_lookup _ _ _ _ _ Htab Hnd Hload Hi).
Qed.

Lemma load_vocab_index_vocabulary_witness :
  exists vocab,
    load_vocab ascii_digit [lit "OOV" ++ [10%N]; lit "A" ++ [10%N]] = Ok vocab
    /\ size vocab = length [lit "OOV" ++ [10%N]; lit "A" ++ [10%N]]
    /\ forall k v,
         vocab !! k = Some v
         <-> exists i line,
               [lit "OOV" ++ [10%N]; lit "A" ++ [10%N]] !! i = Some line
               /\ k = Py.strip 10 line
               /\ v = VInt (Z.of_nat i).
Proof.
  apply (load_vocab_index_vocabulary ascii_digit
           [lit "OOV" ++ [10%N]; lit "A" ++ [10%N]]).
  - repeat constructor; vm_compute; intros H;
      repeat (apply elem_of_cons in H; destruct H as [H | H]; [discriminate |]);
      apply elem_of_nil in H; exact H.
  - vm_compute. repeat constructor.
    + intros H. apply elem_of_cons in H. destruct H as [H | H]; [discriminate |].
      apply elem_of_nil in H. exact H.
    + apply not_elem_of_nil.
Defined.

(** X18. With the word vocabulary loaded from a file of one word per
    line (no tabs, lines pairwise different once stripped) that has an
    "OOV" line, every id [read] yields is the index of a line: an int
    from 0 up to, not including, the size of the vocabulary. *)
Theorem read_one_ids_are_indices (is_digit_char : N -> bool)
    (lines : list pystr) (q2b_vocab word_vocab : gmap pystr vocab_value)
    (kwargs : gmap pystr Z) (input : pystr) :
  Forall (fun line => 9%N ∉ line) lines ->
  NoDup (map (Py.strip 10) lines) ->
  lit "OOV" ∈ map (Py.strip 10) lines ->
  load_vocab is_digit_char lines = Ok word_vocab ->
  Forall (fun id => exists i : nat,
            id = Some (VInt (Z.of_nat i)) /\ (i < size word_vocab)%nat)
    (fst (LacTask.read_one q2b_vocab word_vocab kwargs input)).
Proof.
  intros Htab Hnd Hoov Hload.
  rewrite (index_vocab_size _ _ _ Htab Hnd Hload).
  assert (Hval : forall k v, word_vocab !! k = Some v ->
            exists i : nat, Some v = Some (VInt (Z.of_nat i))
                            /\ (i < length lines)%nat).
  { intros k v Hk.
    destruct (index_vocab_value _ _ _ _ _ Htab Hload Hk) as (i & line & Hi & _ & ->).
    exists i. split; [reflexivity |]. exact (lookup_lt_Some _ _ _ Hi). }
  assert (Hoov' : exists v, word_vocab !! lit "OOV" = Some v).
  { apply list_elem_of_In, in_map_iff in Hoov.
    destruct Hoov as (line & Hline & Hin).
    apply list_elem_of_In, list_elem_of_lookup in Hin. destruct Hin as [i Hi].
    exists (VInt (Z.of_nat i)). rewrite <- Hline.
    exact (index_vocab_lookup _ _ _ _ _ Htab Hnd Hload Hi). }
  destruct Hoov' as [voov Hvoov].
  rewrite read_one_fst, Forall_forall. intros id Hid.
  apply list_elem_of_In, in_map_iff in Hid. destruct Hid as (c & <- & _).
  unfold char_id, LacTask.word_get.
  destruct (LacTask.q2b_get q2b_vocab [c]) as [token | n].
  - destruct (word_vocab !! token) as [v |] eqn:Hv.
    + exact (Hval token v Hv).
    + rewrite Hvoov. exact (Hval _ voov Hvoov).
  - rewrite Hvoov. exact (Hval _ voov Hvoov).
Qed.

Lemma read_one_ids_are_indices_witness :
  Forall (fun id => exists i : nat,
            id = Some (VInt (Z.of_nat i))
            /\ (i < size (<[lit "A" := VInt 1]> (<[lit "OOV" := VInt 0]> ∅)
                          : gmap pystr vocab_value))%nat)
    (fst (LacTask.read_one demo_q2b_vocab
            (<[lit "A" := VInt 1]> (<[lit "OOV" := VInt 0]> ∅))
            ∅ [65313%N; 66%N])).
Proof.
  apply (read_one_ids_are_indices ascii_digit
           [lit "OOV" ++ [10%N]; lit "A" ++ [10%N]]).
  - repeat constructor; vm_compute; intros H;
      repeat (apply elem_of_cons in H; destruct H as [H | H]; [discriminate |]);
      apply elem_of_nil in H; exact H.
  - vm_compute. repeat constructor.
    + intros H. apply elem_of_cons in H. destruct H as [H | H]; [discriminate |].
      apply elem_of_nil in H. exact H.
    + apply not_elem_of_nil.
  - vm_compute. apply elem_of_cons. left. reflexivity.
  - reflexivity.
Defined.

(** ** The id-to-key dicts *)

Lemma id_fold_lookup (items : list (pystr * vocab_value)) :
  forall (d : gmap vocab_value pystr) (v : vocab_value) (k : pystr),
    fold_left (fun d item => <[snd item := fst item]> d) items d !! v = Some k ->
    (k, v) ∈ items \/ d !! v = Some k.
Proof.
  induction items as [| [k0 v0] items IH]; intros d v k Hv; [right; exact Hv |].
  simpl in Hv. destruct (IH _ _ _ Hv) as [Hin | Hd].
  - left. apply elem_of_cons. right. exact Hin.
  - destruct (decide (v0 = v)) as [-> | Hne].
    + rewrite lookup_insert_eq in Hd. injection Hd as ->.
      left. apply elem_of_cons. left. reflexivity.
    + rewrite lookup_insert_ne in Hd by exact Hne. right. exact Hd.
Qed.

Lemma id_fold_keeps (items : list (pystr * vocab_value)) :
  forall (d : gmap vocab_value pystr) (v : vocab_value),
    is_Some (d !! v) ->
    is_Some (fold_left (fun d item => <[snd item := fst item]> d) items d !! v).
Proof.
  induction items as [| [k0 v0] items IH]; intros d v Hd; [exact Hd |].
  simpl. apply IH. destruct (decide (v0 = v)) as [-> | Hne].
  - rewrite lookup_insert_eq. eexists; reflexivity.
  - rewrite lookup_insert_ne by exact Hne. exact Hd.
Qed.

Lemma id_fold_has (items : list (pystr * vocab_value)) :
  forall (d : gmap vocab_value pystr) (k : pystr) (v : vocab_value),
    (k, v) ∈ items ->
    is_Some (fold_left (fun d item => <[snd item := fst item]> d) items d !! v).
Proof.
  induction items as [| [k0 v0] items IH]; intros d k v Hin.
  - apply elem_of_nil in Hin. contradiction.
  - simpl. apply elem_of_cons in Hin. destruct Hin as [Heq | Hin].
    + injection Heq as <- <-. apply id_fold_keeps.
      rewrite lookup_insert_eq. eexists; reflexivity.
    + exact (IH _ _ _ Hin).
Qed.

Lemma str_keyed_lookup (d : gmap vocab_value pystr) (s : pystr) :
  str_keyed d !! s = d !! VStr s.
Proof.
  unfold str_keyed.
  apply (map_fold_weak_ind
           (fun (acc : gmap pystr pystr) (m : gmap vocab_value pystr) =>
              acc !! s = m !! VStr s)).
  - rewrite !lookup_empty. reflexivity.
  - intros k v m acc _ IH. destruct k as [s0 | n].
    + destruct (decide (s0 = s)) as [-> | Hne].
      * rewrite !lookup_insert_eq. reflexivity.
      * rewrite !lookup_insert_ne by congruence. exact IH.
    + rewrite lookup_insert_ne by discriminate. exact IH.
Qed.

(** What the id dict built from the items of a vocabulary holds, for
    whatever order the dict yields its items in. *)
Lemma id_dict_facts (vocab : gmap pystr vocab_value)
    (items : list (pystr * vocab_value)) :
  items ≡ₚ map_to_list vocab ->
  (forall v k, id_dict_of_items items !! v = Some k -> vocab !! k = Some v)
  /\ (forall k v, vocab !! k = Some v ->
        is_Some (id_dict_of_items items !! v)).
Proof.
  intros Hitems. split.
  - intros v k Hv. unfold id_dict_of_items in Hv.
    destruct (id_fold_lookup _ _ _ _ Hv) as [Hin | Hempty];
      [| rewrite lookup_empty in Hempty; discriminate].
    rewrite Hitems in Hin. apply elem_of_map_to_list in Hin. exact Hin.
  - intros k v Hk. unfold id_dict_of_items.
    apply (id_fold_has _ _ k). rewrite Hitems.
    apply elem_of_map_to_list. exact Hk.
Qed.

(** X19. The id dict [__init__] builds from a vocabulary,
    [dict(zip(vocab.values(), vocab.keys()))], maps an id only to a key
    the vocabulary maps to that id, and has an entry for every id of the
    vocabulary.  When no two keys of the vocabulary share an id it is
    the inverse of the vocabulary: [id_dict[vocab[key]] == key].  A
    lookup with a string key, as [id2tag_dict[str(index)]], sees exactly
    its entries with string ids. *)
Theorem id_dict_inverts_vocab (vocab : gmap pystr vocab_value)
    (items : list (pystr * vocab_value)) :
  items ≡ₚ map_to_list vocab ->
  (forall v k, id_dict_of_items items !! v = Some k -> vocab !! k = Some v)
  /\ (forall k v, vocab !! k = Some v ->
        is_Some (id_dict_of_items items !! v))
  /\ ((forall k1 k2 v, vocab !! k1 = Some v -> vocab !! k2 = Some v -> k1 = k2) ->
      forall k v, vocab !! k = Some v ->
        id_dict_of_items items !! v = Some k)
  /\ (forall s, str_keyed (id_dict_of_items items) !! s
               = id_dict_of_items items !! VStr s).
Proof.
  intros Hitems. destruct (id_dict_facts vocab items Hitems) as [Hsound Hhas].
  split; [exact Hsound |]. split; [exact Hhas |]. split.
  - intros Hinj k v Hk. destruct (Hhas k v Hk) as [k' Hk'].
    rewrite Hk'. f_equal. apply (Hinj k' k v); [| exact Hk].
    exact (Hsound v k' Hk').
  - intros s. apply str_keyed_lookup.
Qed.

Lemma id_dict_inverts_vocab_witness :
  (<[lit "O" := VStr (lit "1")]> (<[lit "n-B" := VStr (lit "0")]> ∅)
   : gmap pystr vocab_value) !! lit "n-B"
  = Some (VStr (lit "0")).
Proof.
  assert (Hperm : [(lit "n-B", VStr (lit "0")); (lit "O", VStr (lit "1"))]
                  ≡ₚ map_to_list
                       (<[lit "O" := VStr (lit "1")]>
                          (<[lit "n-B" := VStr (lit "0")]> ∅)
                        : gmap pystr vocab_value)).
  { vm_compute. first [reflexivity | apply perm_swap]. }
  apply (proj1 (id_dict_inverts_vocab _ _ Hperm) (VStr (lit "0")) (lit "n-B")).
  vm_compute. reflexivity.
Defined.

(** ** From a tag file to the tags of the predictions *)

Lemma lstrip_without (c : N) (s : pystr) : c ∉ s -> Py.lstrip c s = s.
Proof.
  destruct s as [| x s]; [reflexivity |]. simpl. intros Hnot.
  rewrite not_elem_of_cons in Hnot. destruct Hnot as [Hne _].
  destruct (N.eqb_spec x c) as [-> | _]; [congruence | reflexivity].
Qed.

Lemma strip_without (c : N) (s : pystr) : c ∉ s -> Py.strip c s = s.
Proof.
  intros Hnot. unfold Py.strip. rewrite (lstrip_without c s Hnot).
  rewrite lstrip_without; [apply rev_involutive |].
  intros Hin. apply Hnot.
  apply list_elem_of_In, in_rev, list_elem_of_In in Hin. exact Hin.
Qed.

Lemma split_app_sep (sep : N) (a b : pystr) :
  sep ∉ a -> Py.split sep (a ++ sep :: b) = a :: Py.split sep b.
Proof.
  induction a as [| c a IH]; simpl; intros Hnot.
  - rewrite N.eqb_refl. reflexivity.
  - rewrite not_elem_of_cons in Hnot. destruct Hnot as [Hne Hnot].
    destruct (N.eqb_spec c sep) as [-> | _]; [congruence |].
    rewrite IH by exact Hnot. reflexivity.
Qed.

Lemma terms_of_two_field_line (t0 t1 : pystr) :
  (9%N ∉ t0) -> (10%N ∉ t0) -> (9%N ∉ t1) -> (10%N ∉ t1) ->
  terms_of (two_field_line t0 t1) = [t0; t1].
Proof.
  intros H90 H100 H91 H101. unfold terms_of, two_field_line.
  replace (t0 ++ [9%N] ++ t1 ++ [10%N]) with ((t0 ++ 9%N :: t1) ++ [10%N])
    by (rewrite <- app_assoc; reflexivity).
  rewrite strip_snoc, strip_without.
  - rewrite split_app_sep by exact H90.
    rewrite split_without_sep by exact H91. reflexivity.
  - rewrite elem_of_app, elem_of_cons. intros [H | [H | H]];
      [contradiction | discriminate | contradiction].
Qed.

Lemma lookup_tags_of_Forall2 (id2tag_dict : gmap pystr pystr)
    (indices : list Z) (tags : list pystr) :
  Forall2 (fun index tag => id2tag_dict !! Py.str_of_int index = Some tag)
    indices tags ->
  LacTask.lookup_tags id2tag_dict indices = Ok tags.
Proof.
  induction 1 as [| index tag indices tags Htag _ IH]; [reflexivity |].
  simpl. unfold Py.dict_getitem. rewrite Htag, IH. reflexivity.
Qed.

Lemma NoDup_map_lookup_inj {A B : Type} (f : A -> B) (l : list A)
    (i j : nat) (x y : A) :
  NoDup (map f l) -> l !! i = Some x -> l !! j = Some y -> f x = f y -> i = j.
Proof.
  intros Hnd Hi Hj Heq.
  apply (NoDup_lookup _ i j (f x) Hnd).
  - change (map f l) with (f <$> l). rewrite list_lookup_fmap, Hi. reflexivity.
  - change (map f l) with (f <$> l). rewrite list_lookup_fmap, Hj. simpl.
    congruence.
Qed.

Section TagFile.

Variable is_digit_char : N -> bool.
Variable pairs : list (pystr * pystr).

Let lines : list pystr :=
  map (fun p => two_field_line (fst p) (snd p)) pairs.

Hypothesis first_id_digits :
  exists id0 tag0 rest, pairs = (id0, tag0) :: rest
                        /\ isdigit is_digit_char id0 = true.
Hypothesis fields_clean :
  Forall (fun p => (9%N ∉ fst p) /\ (10%N ∉ fst p)
                   /\ (9%N ∉ snd p) /\ (10%N ∉ snd p)) pairs.
Hypothesis ids_differ : NoDup (map fst pairs).
Hypothesis tags_differ : NoDup (map snd pairs).

Lemma tag_file_terms (i : nat) (id tag : pystr) :
  pairs !! i = Some (id, tag) ->
  lines !! i = Some (two_field_line id tag)
  /\ terms_of (two_field_line id tag) = [id; tag].
Proof.
  intros Hi. split.
  - unfold lines. change (map ?f pairs) with (f <$> pairs).
    rewrite list_lookup_fmap, Hi. reflexivity.
  - rewrite Forall_forall in fields_clean.
    destruct (fields_clean (id, tag)) as (H1 & H2 & H3 & H4).
    { apply list_elem_of_lookup. exists i. exact Hi. }
    apply terms_of_two_field_line; assumption.
Qed.

Lemma tag_file_line_inv (i : nat) (line : pystr) :
  lines !! i = Some line ->
  exists id tag, pairs !! i = Some (id, tag) /\ line = two_field_line id tag.
Proof.
  unfold lines. change (map ?f pairs) with (f <$> pairs).
  rewrite list_lookup_fmap.
  destruct (pairs !! i) as [[id tag] |]; simpl; [| discriminate].
  intros Hl. injection Hl as <-. exists id, tag. split; reflexivity.
Qed.

Lemma tag_file_not_malformed : existsb malformed lines = false.
Proof.
  apply not_true_is_false. intros Hex.
  apply existsb_exists in Hex. destruct Hex as (line & Hin & Hm).
  apply list_elem_of_In, list_elem_of_lookup in Hin. destruct Hin as [i Hi].
  destruct (tag_file_line_inv i line Hi) as (id & tag & Hp & ->).
  destruct (tag_file_terms i id tag Hp) as [_ Hterms].
  unfold malformed in Hm. rewrite Hterms in Hm. discriminate.
Qed.

Lemma tag_file_reversed : reverse_flag is_digit_char lines = true.
Proof.
  destruct first_id_digits as (id0 & tag0 & rest & Hpairs & Hdigit).
  destruct (tag_file_terms 0 id0 tag0) as [_ Hterms];
    [rewrite Hpairs; reflexivity |].
  unfold lines. rewrite Hpairs. cbn [map reverse_flag fst snd].
  rewrite Hterms. exact Hdigit.
Qed.

Lemma tag_file_entry (i : nat) (id tag : pystr) :
  pairs !! i = Some (id, tag) ->
  entry_of true (Z.of_nat i) (two_field_line id tag) = Some (tag, VStr id).
Proof.
  intros Hi. destruct (tag_file_terms i id tag Hi) as [_ Hterms].
  unfold entry_of. rewrite Hterms. reflexivity.
Qed.

Lemma tag_file_vocab (tag_vocab : gmap pystr vocab_value) :
  load_vocab is_digit_char lines = Ok tag_vocab ->
  forall k v,
    tag_vocab !! k = Some v <-> exists id, (id, k) ∈ pairs /\ v = VStr id.
Proof.
  intros Hload k v. split.
  - intros Hk.
    destruct (load_vocab_origin _ _ _ _ _ Hload Hk) as (i & line & Hi & He & _).
    rewrite tag_file_reversed in He.
    destruct (tag_file_line_inv i line Hi) as (id & tag & Hp & ->).
    rewrite (tag_file_entry i id tag Hp) in He. injection He as <- <-.
    exists id. split; [| reflexivity].
    apply list_elem_of_lookup. exists i. exact Hp.
  - intros (id & Hin & ->).
    apply list_elem_of_lookup in Hin. destruct Hin as [i Hp].
    destruct (tag_file_terms i id k Hp) as [Hline _].
    rewrite load_vocab_eq, tag_file_not_malformed, tag_file_reversed in Hload.
    injection Hload as <-.
    apply (entries_enter_last true lines ∅ i (two_field_line id k));
      [exact Hline | exact (tag_file_entry i id k Hp) |].
    intros j line' v' Hlt Hj He.
    destruct (tag_file_line_inv j line' Hj) as (id' & tag' & Hp' & ->).
    rewrite (tag_file_entry j id' tag' Hp') in He. injection He as Heq _.
    assert (Hij : i = j); [| lia].
    apply (NoDup_map_lookup_inj snd pairs i j (id, k) (id', tag') tags_differ Hp Hp').
    simpl. congruence.
Qed.

Lemma tag_file_ids_injective (tag_vocab : gmap pystr vocab_value) :
  load_vocab is_digit_char lines = Ok tag_vocab ->
  forall k1 k2 v,
    tag_vocab !! k1 = Some v -> tag_vocab !! k2 = Some v -> k1 = k2.
Proof.
  intros Hload k1 k2 v H1 H2.
  apply (tag_file_vocab _ Hload) in H1, H2.
  destruct H1 as (id1 & Hin1 & ->). destruct H2 as (id2 & Hin2 & Heq).
  injection Heq as <-.
  apply list_elem_of_lookup in Hin1, Hin2.
  destruct Hin1 as [i Hi]. destruct Hin2 as [j Hj].
  assert (Hij : i = j).
  { apply (NoDup_map_lookup_inj fst pairs i j _ _ ids_differ Hi Hj). reflexivity. }
  subst j. congruence.
Qed.

End TagFile.

(** X20. A tag file of lines "id<TAB>tag" (fields without tab or
    newline, ids pairwise different, tags pairwise different, the first
    id a string of digits) loads into the vocabulary that maps each tag
    to its id; the id dict [__init__] builds from it maps each id back
    to its tag, whatever the order of the vocabulary's items; and the
    tag lookup of [_postprocess] turns prediction ids whose decimal
    string is an id of the file into the tags of those lines. *)
Theorem tag_file_to_tags (is_digit_char : N -> bool)
    (pairs : list (pystr * pystr)) :
  (exists id0 tag0 rest, pairs = (id0, tag0) :: rest
                         /\ isdigit is_digit_char id0 = true) ->
  Forall (fun p => (9%N ∉ fst p) /\ (10%N ∉ fst p)
                   /\ (9%N ∉ snd p) /\ (10%N ∉ snd p)) pairs ->
  NoDup (map fst pairs) ->
  NoDup (map snd pairs) ->
  exists tag_vocab,
    load_vocab is_digit_char
      (map (fun p => two_field_line (fst p) (snd p)) pairs)
    = Ok tag_vocab
    /\ (forall k v,
          tag_vocab !! k = Some v
          <-> exists id, (id, k) ∈ pairs /\ v = VStr id)
    /\ forall items,
         items ≡ₚ map_to_list tag_vocab ->
         (forall id tag, (id, tag) ∈ pairs ->
            str_keyed (id_dict_of_items items) !! id = Some tag)
         /\ forall indices tags,
              Forall2 (fun index tag => (Py.str_of_int index, tag) ∈ pairs)
                indices tags ->
              LacTask.lookup_tags (str_keyed (id_dict_of_items items)) indices
              = Ok tags.
Proof.
  intros Hfirst Hclean Hids Htags.
  destruct (load_vocab is_digit_char
              (map (fun p => two_field_line (fst p) (snd p)) pairs))
    as [tag_vocab | e] eqn:Hload.
  2: { rewrite load_vocab_eq in Hload.
       rewrite (tag_file_not_malformed pairs Hclean) in Hload. discriminate. }
  exists tag_vocab. split; [reflexivity |].
  pose proof (tag_file_vocab is_digit_char pairs Hfirst Hclean Htags
                tag_vocab Hload) as Hvocab.
  split; [exact Hvocab |].
  intros items Hitems.
  destruct (id_dict_facts tag_vocab items Hitems) as [Hsound Hhas].
  assert (Hback : forall id tag, (id, tag) ∈ pairs ->
            str_keyed (id_dict_of_items items) !! id = Some tag).
  { intros id tag Hin. rewrite str_keyed_lookup.
    assert (Hk : tag_vocab !! tag = Some (VStr id)).
    { apply Hvocab. exists id. split; [exact Hin | reflexivity]. }
    destruct (Hhas tag (VStr id) Hk) as [tag' Htag'].
    rewrite Htag'. f_equal.
    apply (tag_file_ids_injective is_digit_char pairs Hfirst Hclean Hids Htags
             tag_vocab Hload tag' tag (VStr id)); [| exact Hk].
    exact (Hsound _ _ Htag'). }
  split; [exact Hback |].
  intros indices tags Hall. apply lookup_tags_of_Forall2.
  induction Hall as [| index tag indices tags Hin _ IH]; constructor;
    [apply Hback; exact Hin | exact IH].
Qed.

Lemma tag_file_to_tags_witness :
  exists tag_vocab,
    load_vocab ascii_digit
      (map (fun p => two_field_line (fst p) (snd p))
         [(lit "0", lit "n-B"); (lit "1", lit "O")])
    = Ok tag_vocab
    /\ (forall k v,
          tag_vocab !! k = Some v
          <-> exists id, (id, k) ∈ [(lit "0", lit "n-B"); (lit "1", lit "O")]
                         /\ v = VStr id)
    /\ forall items,
         items ≡ₚ map_to_list tag_vocab ->
         (forall id tag,
            (id, tag) ∈ [(lit "0", lit "n-B"); (lit "1", lit "O")] ->
            str_keyed (id_dict_of_items items) !! id = Some tag)
         /\ forall indices tags,
              Forall2 (fun index tag =>
                         (Py.str_of_int index, tag)
                         ∈ [(lit "0", lit "n-B"); (lit "1", lit "O")])
                indices tags ->
              LacTask.lookup_tags (str_keyed (id_dict_of_items items)) indices
              = Ok tags.
Proof.
  assert (Hnot : forall (x : N) (l : pystr),
            bool_decide (x ∈ l) = false -> x ∉ l).
  { intros x l H. apply bool_decide_eq_false in H. exact H. }
  apply (tag_file_to_tags ascii_digit [(lit "0", lit "n-B"); (lit "1", lit "O")]).
  - exists (lit "0"), (lit "n-B"), [(lit "1", lit "O")]. split; reflexivity.
  - repeat constructor; apply Hnot; reflexivity.
  - apply (bool_decide_unpack _). reflexivity.
  - apply (bool_decide_unpack _). reflexivity.
Defined.

Example tag_file_demo :
  LacTask.lookup_tags
    (str_keyed
       (id_dict_of_items [(lit "n-B", VStr (lit "0")); (lit "O", VStr (lit "1"))]))
    [1; 0; 0]
  = Ok [lit "O"; lit "n-B"; lit "n-B"].
Proof. vm_compute. reflexivity. Qed.

(** ** One more tag *)

Lemma segment_starts_app_l (tags more : list pystr) (n : nat) :
  (n <= length tags)%nat ->
  Spec.segment_starts (tags ++ more) n = Spec.segment_starts tags n.
Proof.
  intros Hn. unfold Spec.segment_starts.
  apply List.filter_ext_in. intros a Ha. apply in_seq in Ha.
  apply starts_segment_app_l. lia.
Qed.

(** X21. The decode grows with the tags one step at a time: with one
    more tag (and a character for it), either the tag starts a segment,
    and then the new character is appended as a segment of its own and
    the coarse form of the tag as its tag, or the new character is
    appended to the last segment and the tags stay as they are. *)
Theorem decode_one_more_tag (sent : pystr) (tags : list pystr) (tag : pystr)
    (c : N) (segs tags_out : list pystr) :
  tags <> [] ->
  sent !! length tags = Some c ->
  LacTask.decode sent tags = Ok (segs, tags_out) ->
  if Spec.starts_segment (tags ++ [tag]) (length tags)
  then LacTask.decode sent (tags ++ [tag])
       = Ok (segs ++ [[c]], tags_out ++ [Spec.before_dash tag])
  else exists init last,
         segs = init ++ [last]
         /\ LacTask.decode sent (tags ++ [tag])
            = Ok (init ++ [last ++ [c]], tags_out).
Proof.
  intros Hne Hc Hdec.
  destruct (decode_ok_facts _ _ _ _ Hdec) as (Hsegs & Hout & _ & _).
  assert (Hlen : (length (tags ++ [tag]) <= length sent)%nat).
  { rewrite length_app. simpl. apply lookup_lt_Some in Hc. lia. }
  destruct (decode_correct sent (tags ++ [tag]) Hlen)
    as (segs' & tags_out' & Hdec' & Hsegs' & Hout' & _).
  unfold Spec.segments in Hsegs, Hsegs'.
  rewrite length_app in Hsegs', Hout'. simpl length in Hsegs', Hout'.
  rewrite Nat.add_1_r in Hsegs', Hout'.
  rewrite segment_starts_S in Hsegs', Hout'.
  rewrite (segment_starts_app_l tags [tag] (length tags)) in Hsegs', Hout'
    by lia.
  assert (Hmap : map (fun a => Spec.before_dash (Spec.tag_at (tags ++ [tag]) a))
                   (Spec.segment_starts tags (length tags))
                 = tags_out).
  { rewrite Hout. apply map_ext_in. intros a Ha.
    apply list_elem_of_In, segment_starts_lt in Ha.
    rewrite tag_at_app_l by exact Ha. reflexivity. }
  destruct (Spec.starts_segment (tags ++ [tag]) (length tags)).
  - rewrite Hdec'. f_equal. f_equal.
    + rewrite Hsegs', cut_at_snoc, (substring_one sent _ c Hc), Hsegs.
      reflexivity.
    + rewrite Hout', map_app, Hmap. simpl map. f_equal. f_equal.
      replace (length tags) with (length tags + 0)%nat at 1 by lia.
      rewrite tag_at_app_r. reflexivity.
  - rewrite app_nil_r in Hsegs', Hout'.
    destruct (length tags) as [| p] eqn:Hn.
    { apply length_zero_iff_nil in Hn. contradiction. }
    destruct (segment_starts_last tags p) as (starts & a & Hs & Ha).
    rewrite Hs in Hsegs, Hsegs'.
    rewrite cut_at_snoc in Hsegs, Hsegs'.
    rewrite (substring_extend sent a (S p) c) in Hsegs' by (lia || assumption).
    exists (Spec.cut_at sent starts a), (Spec.substring sent a (S p)).
    split; [exact Hsegs |].
    rewrite Hdec', Hsegs', Hout', Hmap. reflexivity.
Qed.

Lemma decode_one_more_tag_witness :
  exists init last,
    [lit "a"; lit "b"] = init ++ [last]
    /\ LacTask.decode (lit "abc") ([lit "n-B"; lit "v-B"] ++ [lit "v-I"])
       = Ok (init ++ [last ++ [99%N]], [lit "n"; lit "v"]).
Proof.
  apply (decode_one_more_tag (lit "abc") [lit "n-B"; lit "v-B"] (lit "v-I")
           99%N [lit "a"; lit "b"] [lit "n"; lit "v"]).
  - discriminate.
  - reflexivity.
  - reflexivity.
Defined.

(** ** Batches *)

Lemma range_app (n m : nat) :
  LacTask.range (n + m)
  = LacTask.range n ++ map (fun z => Z.of_nat n + z) (LacTask.range m).
Proof.
  unfold LacTask.range. rewrite seq_app, map_app, map_map. f_equal.
  rewrite Nat.add_0_l.
  rewrite <- (Nat.add_0_r n) at 1.
  rewrite <- (fmap_add_seq n 0 m).
  change (Nat.add n <$> seq 0 m) with (map (Nat.add n) (seq 0 m)).
  rewrite map_map. apply map_ext. intros a. lia.
Qed.

Lemma mapM_map {A B C : Type} (f : B -> result C) (g : A -> B) (l : list A) :
  mapM f (map g l) = mapM (fun x => f (g x)) l.
Proof.
  induction l as [| x l IH]; simpl; [reflexivity |]. rewrite IH. reflexivity.
Qed.

Lemma getitem_app_l {A : Type} (l k : list A) (i : nat) :
  (i < length l)%nat ->
  Py.getitem (l ++ k) (Z.of_nat i) = Py.getitem l (Z.of_nat i).
Proof.
  intros Hi. destruct (lookup_lt_is_Some_2 l i Hi) as [x Hx].
  rewrite (getitem_nat l i x Hx). apply getitem_nat.
  rewrite lookup_app_l by exact Hi. exact Hx.
Qed.

Lemma getitem_app_r {A : Type} (l k : list A) (j : nat) :
  Py.getitem (l ++ k) (Z.of_nat (length l) + Z.of_nat j)
  = Py.getitem k (Z.of_nat j).
Proof.
  replace (Z.of_nat (length l) + Z.of_nat j) with (Z.of_nat (length l + j))
    by lia.
  unfold Py.getitem.
  destruct (Z.ltb_spec (Z.of_nat (length l + j)) 0) as [Hneg | _]; [lia |].
  destruct (Z.ltb_spec (Z.of_nat (length l + j)) 0) as [Hneg | _]; [lia |].
  destruct (Z.ltb_spec (Z.of_nat j) 0) as [Hneg | _]; [lia |].
  destruct (Z.ltb_spec (Z.of_nat j) 0) as [Hneg | _]; [lia |].
  rewrite !Nat2Z.id, lookup_app_r by lia.
  replace (length l + j - length l)%nat with j by lia. reflexivity.
Qed.

(** X22. Decoding two batches one after the other is decoding their
    concatenation: when the first batch has as many texts and
    prediction lists as lengths, [_postprocess] on the concatenated
    lists returns the records of the first batch followed by those of
    the second, and raises what the first of the two runs to fail
    raises. *)
Theorem postprocess_batches (id2tag_dict : gmap pystr pystr)
    (batch1 batch2 : LacTask.model_outputs) :
  length (LacTask.in_text batch1) = length (LacTask.in_lens batch1) ->
  length (LacTask.in_result batch1) = length (LacTask.in_lens batch1) ->
  LacTask._postprocess id2tag_dict
    {| LacTask.in_text := LacTask.in_text batch1 ++ LacTask.in_text batch2;
       LacTask.in_result := LacTask.in_result batch1 ++ LacTask.in_result batch2;
       LacTask.in_lens := LacTask.in_lens batch1 ++ LacTask.in_lens batch2 |}
  = (records1 <- LacTask._postprocess id2tag_dict batch1 ;;
     records2 <- LacTask._postprocess id2tag_dict batch2 ;;
     Ok (records1 ++ records2)).
Proof.
  intros Htext Hresult. rewrite !postprocess_mapM.
  cbn [LacTask.in_lens]. rewrite length_app, range_app, mapM_app, mapM_map.
  set (n := length (LacTask.in_lens batch1)) in *.
  assert (H1 : mapM (LacTask.process_sentence id2tag_dict
                       {| LacTask.in_text :=
                            LacTask.in_text batch1 ++ LacTask.in_text batch2;
                          LacTask.in_result :=
                            LacTask.in_result batch1 ++ LacTask.in_result batch2;
                          LacTask.in_lens :=
                            LacTask.in_lens batch1 ++ LacTask.in_lens batch2 |})
                  (LacTask.range n)
                = mapM (LacTask.process_sentence id2tag_dict batch1)
                    (LacTask.range n)).
  { apply mapM_ext_in. intros z Hz.
    apply range_elem in Hz. destruct Hz as (i & -> & Hi).
    unfold LacTask.process_sentence.
    cbn [LacTask.in_text LacTask.in_result LacTask.in_lens].
    rewrite !getitem_app_l by lia. reflexivity. }
  rewrite H1. clear H1.
  destruct (mapM (LacTask.process_sentence id2tag_dict batch1) (LacTask.range n))
    as [records1 | e]; cbn [bind]; [| reflexivity].
  rewrite (mapM_ext_in _ (LacTask.process_sentence id2tag_dict batch2));
    [reflexivity |].
  intros z Hz. apply range_elem in Hz. destruct Hz as (j & -> & Hj).
  unfold LacTask.process_sentence.
  cbn [LacTask.in_text LacTask.in_result LacTask.in_lens].
  subst n. rewrite getitem_app_r.
  rewrite <- Hresult, getitem_app_r. rewrite Hresult, <- Htext, getitem_app_r.
  reflexivity.
Qed.

Lemma postprocess_batches_witness :
  LacTask._postprocess demo_id2tag
    {| LacTask.in_text := [lit "abc"] ++ [lit "de"];
       LacTask.in_result := [[0; 1; 2]] ++ [[2; 0; 2]];
       LacTask.in_lens := [3] ++ [2] |}
  = (records1 <- LacTask._postprocess demo_id2tag
                   {| LacTask.in_text := [lit "abc"];
                      LacTask.in_result := [[0; 1; 2]];
                      LacTask.in_lens := [3] |} ;;
     records2 <- LacTask._postprocess demo_id2tag
                   {| LacTask.in_text := [lit "de"];
                      LacTask.in_result := [[2; 0; 2]];
                      LacTask.in_lens := [2] |} ;;
     Ok (records1 ++ records2)).
Proof.
  apply (postprocess_batches demo_id2tag
           {| LacTask.in_text := [lit "abc"];
              LacTask.in_result := [[0; 1; 2]];
              LacTask.in_lens := [3] |}
           {| LacTask.in_text := [lit "de"];
              LacTask.in_result := [[2; 0; 2]];
              LacTask.in_lens := [2] |}); reflexivity.
Defined.
